(** * bluetooth_data_sender: the relay service between local producers and
      the RFCOMM serial port

    A shallow embedding of [bluetooth_data_sender/bluetooth_data_sender.py]:
    the module globals [ser], [clients], [exit_flag] become fields of a
    [world] record, every external call (pyserial, sockets, the file system)
    takes its outcome from an explicit environment and leaves an [event] in
    the world's trace, and Python exceptions are the [Raise] branch of a
    state-and-exception monad.  The [print] calls of the source are not
    modelled: they touch nothing but standard output. *)

From Stdlib Require Import List NArith ZArith Arith Lia Bool String Ascii.
From Stdlib Require Import Strings.Byte.
Import ListNotations.

Open Scope N_scope.

(* ================================================================== *)
(** ** Python values: [bytes], [str], UTF-8, [strip], [endswith]       *)
(* ================================================================== *)

Module Py.

(** A Python [bytes] object. *)
Definition bytes := list byte.

(** A Python [str]: a sequence of Unicode code points. *)
Definition pystr := list N.

(** A [b'...'] literal holding ASCII text. *)
Definition b_lit (s : string) : bytes := list_byte_of_string s.

(** A ['...'] literal holding ASCII text. *)
Definition s_lit (s : string) : pystr := map Byte.to_N (list_byte_of_string s).

(** The byte with value [n] (for [n <= 255]). *)
Definition byte_of (n : N) : byte :=
  match Byte.of_N n with
  | Some b => b
  | None => x00
  end.

(** [b'\n'] and ['\n']. *)
Definition NL : byte := x0a.
Definition nl : N := 10.

Definition in_range (lo hi n : N) : bool := (lo <=? n) && (n <=? hi).

(** A UTF-8 continuation byte, 0x80..0xBF. *)
Definition is_cont (n : N) : bool := in_range 0x80 0xBF n.

(** [bytes.decode()] with the default codec (UTF-8, errors='strict').
    [None] stands for the [UnicodeDecodeError] it raises.  The accepted
    byte sequences are the well-formed ones of the Unicode standard
    (table 3-7): no overlong forms, no surrogates, nothing above
    U+10FFFF. *)
Fixpoint decode (bs : bytes) : option pystr :=
  match bs with
  | [] => Some []
  | b0 :: r0 =>
    let n0 := Byte.to_N b0 in
    if n0 <? 0x80 then option_map (cons n0) (decode r0)
    else if n0 <? 0xC2 then None
    else if n0 <? 0xE0 then
      match r0 with
      | b1 :: r1 =>
        let n1 := Byte.to_N b1 in
        if is_cont n1
        then option_map (cons ((n0 - 0xC0) * 64 + (n1 - 0x80))) (decode r1)
        else None
      | _ => None
      end
    else if n0 <? 0xF0 then
      match r0 with
      | b1 :: b2 :: r2 =>
        let n1 := Byte.to_N b1 in
        let n2 := Byte.to_N b2 in
        if in_range (if n0 =? 0xE0 then 0xA0 else 0x80)
                    (if n0 =? 0xED then 0x9F else 0xBF) n1
           && is_cont n2
        then option_map
               (cons ((n0 - 0xE0) * 4096 + (n1 - 0x80) * 64 + (n2 - 0x80)))
               (decode r2)
        else None
      | _ => None
      end
    else if n0 <? 0xF5 then
      match r0 with
      | b1 :: b2 :: b3 :: r3 =>
        let n1 := Byte.to_N b1 in
        let n2 := Byte.to_N b2 in
        let n3 := Byte.to_N b3 in
        if in_range (if n0 =? 0xF0 then 0x90 else 0x80)
                    (if n0 =? 0xF4 then 0x8F else 0xBF) n1
           && is_cont n2 && is_cont n3
        then option_map
               (cons ((n0 - 0xF0) * 262144 + (n1 - 0x80) * 4096
                      + (n2 - 0x80) * 64 + (n3 - 0x80)))
               (decode r3)
        else None
      | _ => None
      end
    else None
  end.

(** The UTF-8 bytes of one code point; [None] for a surrogate
    (U+D800..U+DFFF), which [str.encode()] refuses, and for a number that
    is no code point. *)
Definition encode_cp (c : N) : option bytes :=
  if c <? 0x80 then Some [byte_of c]
  else if c <? 0x800 then
    Some [byte_of (0xC0 + c / 64); byte_of (0x80 + c mod 64)]
  else if c <? 0x10000 then
    if in_range 0xD800 0xDFFF c then None
    else Some [byte_of (0xE0 + c / 4096);
               byte_of (0x80 + (c / 64) mod 64);
               byte_of (0x80 + c mod 64)]
  else if c <? 0x110000 then
    Some [byte_of (0xF0 + c / 262144);
          byte_of (0x80 + (c / 4096) mod 64);
          byte_of (0x80 + (c / 64) mod 64);
          byte_of (0x80 + c mod 64)]
  else None.

(** [str.encode()] with the default codec (UTF-8, errors='strict');
    [None] stands for the [UnicodeEncodeError] it raises. *)
Fixpoint encode (s : pystr) : option bytes :=
  match s with
  | [] => Some []
  | c :: r =>
    match encode_cp c, encode r with
    | Some bc, Some br => Some (bc ++ br)
    | _, _ => None
    end
  end.

(** [str.isspace()] on one character: the code points CPython's
    [_PyUnicode_IsWhitespace] accepts. *)
Definition isspace (c : N) : bool :=
  in_range 0x09 0x0D c || in_range 0x1C 0x20 c
  || (c =? 0x85) || (c =? 0xA0) || (c =? 0x1680)
  || in_range 0x2000 0x200A c
  || (c =? 0x2028) || (c =? 0x2029) || (c =? 0x202F)
  || (c =? 0x205F) || (c =? 0x3000).

(** [str.lstrip()], [str.rstrip()] and [str.strip()] with no argument. *)
Fixpoint lstrip (s : pystr) : pystr :=
  match s with
  | [] => []
  | c :: r => if isspace c then lstrip r else s
  end.

Definition rstrip (s : pystr) : pystr := rev (lstrip (rev s)).

Definition strip (s : pystr) : pystr := rstrip (lstrip s).

(** [data_bytes.endswith(b'\n')]. *)
Definition ends_with_newline (bs : bytes) : bool :=
  match rev bs with
  | b :: _ => Byte.eqb b NL
  | [] => false
  end.

End Py.

(* ================================================================== *)
(** ** The service: globals, environment, effects                      *)
(* ================================================================== *)

Module Sender.
Import Py.

(** Configuration (lines 12-15). *)
Definition RFCOMM_PORT : string := "/dev/rfcomm0".
Definition UNIX_SOCKET_PATH : string := "/tmp/bluetooth_sender.sock".
Definition BUFFER_SIZE : N := 4096.

(** The exceptions that occur in the service. *)
Inductive exn : Type :=
| UnicodeDecodeError (obj : bytes)   (* [bytes.decode()] on ill-formed input *)
| UnicodeEncodeError (obj : pystr)   (* [str.encode()] on a surrogate *)
| AttributeError (attr : string)     (* ['NoneType' object has no attribute attr] *)
| PortNotOpenError                   (* pyserial: operation on a closed port *)
| SerialException (errno : N)        (* pyserial: the device call failed *)
| OSError (errno : N).               (* socket and file-system failures *)

(** The outcome of a Python call: a value or a raised exception. *)
Inductive res (A : Type) : Type :=
| Ret (a : A)
| Raise (e : exn).
Arguments Ret {A} a.
Arguments Raise {A} e.

(** A [serial.Serial] object; [ser.close()] clears [is_open]. *)
Record Serial : Type := mkSerial { is_open : bool }.

(** A connected client socket, known by its identity. *)
Definition socket := nat.

(** What the service does to the outside. *)
Inductive event : Type :=
| SerialOpen (ok : bool)                  (* [serial.Serial(RFCOMM_PORT, timeout=1)] *)
| SerialClose                             (* [ser.close()] *)
| SerialWrite (data : bytes) (ok : bool)  (* [ser.write(data)] reaching the device *)
| SockRecv (c : socket) (r : res bytes)   (* [client_socket.recv(BUFFER_SIZE)] *)
| SockSend (c : socket) (data : bytes) (ok : bool)  (* [client_socket.send(data)] *)
| SockClose (c : socket)                  (* [client_socket.close()] *)
| Unlink.                                 (* [os.unlink(UNIX_SOCKET_PATH)] *)

(** The module's globals (lines 17-20), the one file the service owns, and
    the events so far, oldest first. *)
Record world : Type := mkWorld {
  ser : option Serial;          (* [ser = None] *)
  clients : list socket;        (* [clients = []] *)
  exit_flag : bool;             (* [exit_flag = False] *)
  socket_file : bool;           (* [os.path.exists(UNIX_SOCKET_PATH)] *)
  trace : list event
}.

(** What the outside answers while one call of the service runs. *)
Record env : Type := mkEnv {
  comports : list string;        (* devices of [serial.tools.list_ports.comports()] *)
  open_fault : option exn;       (* what [serial.Serial(...)] raises, if anything *)
  write_fault : option exn;      (* what [ser.write(...)] raises, if anything *)
  send_fault : option exn;       (* what [client_socket.send(...)] raises *)
  close_fault : option exn;      (* what [client.close()] raises *)
  unlink_fault : option exn      (* what [os.unlink(...)] raises *)
}.

(** *** State and exception monad *)

Definition M (A : Type) : Type := world -> res A * world.

Definition ret {A} (a : A) : M A := fun w => (Ret a, w).

Definition raise {A} (e : exn) : M A := fun w => (Raise e, w).

Definition bind {A B} (c : M A) (k : A -> M B) : M B :=
  fun w =>
    match c w with
    | (Ret a, w') => k a w'
    | (Raise e, w') => (Raise e, w')
    end.

(** [try: c  except Exception as e: h e] *)
Definition try_except {A} (c : M A) (h : exn -> M A) : M A :=
  fun w =>
    match c w with
    | (Ret a, w') => (Ret a, w')
    | (Raise e, w') => h e w'
    end.

(** [try: c  except: pass] *)
Definition try_pass (c : M unit) : M unit := try_except c (fun _ => ret tt).

Declare Scope py_scope.
Delimit Scope py_scope with py.
Notation "x <- c ;; k" := (bind c (fun x => k))
  (at level 61, c at next level, right associativity) : py_scope.
Notation "c ;; k" := (bind c (fun _ => k))
  (at level 61, right associativity) : py_scope.
Open Scope py_scope.

Definition get : M world := fun w => (Ret w, w).

(** A computation that does not touch the world. *)
Definition lift {A} (r : res A) : M A := fun w => (r, w).

Definition emit (ev : event) : M unit :=
  fun w => (Ret tt, mkWorld (ser w) (clients w) (exit_flag w) (socket_file w)
                            (trace w ++ [ev])).

Definition set_ser (s : option Serial) : M unit :=
  fun w => (Ret tt, mkWorld s (clients w) (exit_flag w) (socket_file w) (trace w)).

Definition set_clients (l : list socket) : M unit :=
  fun w => (Ret tt, mkWorld (ser w) l (exit_flag w) (socket_file w) (trace w)).

Definition set_exit_flag (b : bool) : M unit :=
  fun w => (Ret tt, mkWorld (ser w) (clients w) b (socket_file w) (trace w)).

Definition set_socket_file (b : bool) : M unit :=
  fun w => (Ret tt, mkWorld (ser w) (clients w) (exit_flag w) b (trace w)).

(** An external call that raises what the environment says. *)
Definition fault (f : option exn) : M unit :=
  match f with
  | Some e => raise e
  | None => ret tt
  end.

Definition no_fault (f : option exn) : bool :=
  match f with
  | Some _ => false
  | None => true
  end.

(** *** pyserial and socket primitives *)

(** [ser and ser.is_open]; its negation is [ser is None or not ser.is_open]. *)
Definition ser_is_open (w : world) : bool :=
  match ser w with
  | Some s => is_open s
  | None => false
  end.

(** [ser and not ser.is_open]: a handle that is there but closed. *)
Definition ser_is_closed_handle (w : world) : bool :=
  match ser w with
  | Some s => negb (is_open s)
  | None => false
  end.

(** [ser = serial.Serial(RFCOMM_PORT, timeout=1)]: the constructor opens
    the port, and [ser] is assigned only when it returns. *)
Definition serial_open (e : env) : M unit :=
  emit (SerialOpen (no_fault (open_fault e))) ;;
  fault (open_fault e) ;;
  set_ser (Some (mkSerial true)).

(** [ser.close()] *)
Definition serial_close : M unit :=
  w <- get ;;
  match ser w with
  | None => raise (AttributeError "close")
  | Some _ => emit SerialClose ;; set_ser (Some (mkSerial false))
  end.

(** [ser.write(data_bytes)] *)
Definition serial_write (e : env) (data : bytes) : M unit :=
  w <- get ;;
  match ser w with
  | None => raise (AttributeError "write")
  | Some s =>
    if is_open s
    then emit (SerialWrite data (no_fault (write_fault e))) ;;
         fault (write_fault e)
    else raise PortNotOpenError
  end.

(** [client_socket.send(data)] *)
Definition sock_send (e : env) (c : socket) (data : bytes) : M unit :=
  emit (SockSend c data (no_fault (send_fault e))) ;;
  fault (send_fault e).

(** [client_socket.recv(BUFFER_SIZE)], whose outcome is [r]. *)
Definition sock_recv (c : socket) (r : res bytes) : M bytes :=
  emit (SockRecv c r) ;;
  match r with
  | Ret data => ret data
  | Raise e => raise e
  end.

(** [client_socket.close()] *)
Definition sock_close (e : env) (c : socket) : M unit :=
  emit (SockClose c) ;;
  fault (close_fault e).

(** [os.unlink(UNIX_SOCKET_PATH)] *)
Definition unlink (e : env) : M unit :=
  emit Unlink ;;
  fault (unlink_fault e) ;;
  set_socket_file false.

(* ================================================================== *)
(** ** The functions of the service                                    *)
(* ================================================================== *)

(** [is_rfcomm_available()] (lines 41-44): [RFCOMM_PORT in ports]. *)
Definition is_rfcomm_available (e : env) : bool :=
  existsb (String.eqb RFCOMM_PORT) (comports e).

(** The reset both [except] blocks perform (lines 36-38 and 74-76):
    [if ser and ser.is_open: ser.close()] then [ser = None]. *)
Definition reset_connection : M unit :=
  w <- get ;;
  (if ser_is_open w then serial_close else ret tt) ;;
  set_ser None.

(** [setup_serial_connection()] (lines 22-39).  The result is Python's
    [True], [False], or [None] when control falls off the end of the
    function (the port is listed and [ser] is already open). *)
Definition setup_serial_connection (e : env) : M (option bool) :=
  try_except
    (if is_rfcomm_available e
     then
       w <- get ;;
       if negb (ser_is_open w)
       then serial_open e ;; ret (Some true)
       else ret None
     else ret (Some false))
    (fun _ => reset_connection ;; ret (Some false)).

(** Python truthiness of what [setup_serial_connection] returns. *)
Definition truthy (r : option bool) : bool :=
  match r with
  | Some b => b
  | None => false
  end.

(** The argument of [send_data]: a [str], a [bytes], or any other object,
    of which only [str(data)] matters. *)
Inductive pyval : Type :=
| PStr (s : pystr)
| PBytes (b : bytes)
| POther (str_of : pystr).

(** [s.encode()] and [b.decode()], with the exception each raises. *)
Definition str_encode (s : pystr) : res bytes :=
  match encode s with
  | Some b => Ret b
  | None => Raise (UnicodeEncodeError s)
  end.

Definition bytes_decode (b : bytes) : res pystr :=
  match decode b with
  | Some s => Ret s
  | None => Raise (UnicodeDecodeError b)
  end.

(** Lines 57-62: the bytes of the argument. *)
Definition to_bytes (data : pyval) : res bytes :=
  match data with
  | PStr s => str_encode s
  | PBytes b => Ret b
  | POther s => str_encode s
  end.

(** Lines 64-66: [if not data_bytes.endswith(b'\n'): data_bytes += b'\n']. *)
Definition ensure_newline (data_bytes : bytes) : bytes :=
  if ends_with_newline data_bytes then data_bytes else data_bytes ++ [NL].

(** Lines 50-54 of [send_data]: the connection check.  [false] is the
    [return False] of line 54. *)
Definition ensure_connection (e : env) : M bool :=
  w <- get ;;
  if negb (ser_is_open w)
  then r <- setup_serial_connection e ;; ret (truthy r)
  else ret true.

(** Lines 56-70 of [send_data]: encode, terminate, write.  Line 69 decodes
    the bytes again for the log line, which raises on bytes that are no
    UTF-8. *)
Definition transmit (e : env) (data : pyval) : M bool :=
  data_bytes <- lift (to_bytes data) ;;
  serial_write e (ensure_newline data_bytes) ;;
  lift (bytes_decode (ensure_newline data_bytes)) ;;
  ret true.

(** The [except] block of [send_data] (lines 71-77). *)
Definition on_error : exn -> M bool := fun _ => reset_connection ;; ret false.

(** [send_data(data)] (lines 46-77). *)
Definition send_data (e : env) (data : pyval) : M bool :=
  try_except
    (connected <- ensure_connection e ;;
     if connected then transmit e data else ret false)
    on_error.

(** The loop of [cleanup] over [clients] (lines 85-89). *)
Fixpoint close_clients (e : env) (cs : list socket) : M unit :=
  match cs with
  | [] => ret tt
  | c :: r => try_pass (sock_close e c) ;; close_clients e r
  end.

(** [cleanup()] (lines 79-101). *)
Definition cleanup (e : env) : M unit :=
  set_exit_flag true ;;
  w <- get ;;
  close_clients e (clients w) ;;
  set_clients [] ;;
  w <- get ;;
  (if ser_is_open w then serial_close ;; set_ser None else ret tt) ;;
  w <- get ;;
  (if socket_file w then unlink e else ret tt).

(** [client_socket in clients] and [clients.remove(client_socket)], which
    removes the first occurrence. *)
Definition in_clients (c : socket) (l : list socket) : bool :=
  existsb (Nat.eqb c) l.

Fixpoint remove_first (c : socket) (l : list socket) : list socket :=
  match l with
  | [] => []
  | x :: r => if Nat.eqb c x then r else x :: remove_first c r
  end.

(** [clients.append(client_socket)] (line 106). *)
Definition register (c : socket) : M unit :=
  w <- get ;;
  set_clients (clients w ++ [c]).

(** The two acknowledgements (lines 122 and 124). *)
Definition ACK : bytes := b_lit "ACK" ++ [NL].
Definition NACK : bytes := b_lit "NACK" ++ [NL].

Section Session.

(** Python's [str(e)] for an exception: the text is CPython's and
    pyserial's, not the service's. *)
Variable exn_str : exn -> pystr.

(** Lines 114-127: the processing of one received chunk. *)
Definition process (e : env) (c : socket) (data : bytes) : M unit :=
  try_except
    (s <- lift (bytes_decode data) ;;
     success <- send_data e (PStr (strip s)) ;;
     if success
     then sock_send e c ACK
     else sock_send e c NACK)
    (fun ex =>
       reply <- lift (str_encode (s_lit "ERROR: " ++ exn_str ex ++ [nl])) ;;
       sock_send e c reply).

(** The [while not exit_flag] loop (lines 109-127), run against a script:
    for each turn of the loop, the environment of that turn and what
    [recv] returns.  The result is [true] when the loop has been left
    ([exit_flag] set, or the [break] of line 112) and [false] when the
    script is used up and the thread sits in [recv]. *)
Fixpoint serve (script : list (env * res bytes)) (c : socket) : M bool :=
  fun w =>
    if exit_flag w then ret true w
    else
      match script with
      | [] => ret false w
      | (e, r) :: rest =>
        (data <- sock_recv c r ;;
         match data with
         | [] => ret true
         | _ :: _ => process e c data ;; serve rest c
         end) w
      end.

(** The [finally] block (lines 130-136). *)
Definition finish (fin : env) (c : socket) : M unit :=
  try_pass (sock_close fin c) ;;
  w <- get ;;
  if in_clients c (clients w)
  then set_clients (remove_first c (clients w))
  else ret tt.

(** [handle_client(client_socket)] (lines 103-136); [fin] is the
    environment in which the [finally] block runs. *)
Definition handle_client (script : list (env * res bytes)) (fin : env)
    (c : socket) : M unit :=
  register c ;;
  left <- try_except (serve script c) (fun _ => ret true) ;;
  if left then finish fin c else ret tt.

End Session.

(** One turn of the loop of [rfcomm_monitor] (lines 143-148). *)
Definition monitor_check (e : env) : M unit :=
  w <- get ;;
  if negb (is_rfcomm_available e) || ser_is_closed_handle w
  then
    (if ser_is_open w then serial_close else ret tt) ;;
    set_ser None ;;
    setup_serial_connection e ;;
    ret tt
  else ret tt.

(** [rfcomm_monitor()] (lines 138-149), one environment per 5 s interval. *)
Fixpoint rfcomm_monitor (intervals : list env) : M unit :=
  fun w =>
    if exit_flag w then ret tt w
    else
      match intervals with
      | [] => ret tt w
      | e :: rest => (monitor_check e ;; rfcomm_monitor rest) w
      end.

End Sender.

(* ================================================================== *)
(** ** Threads: a session's write next to the monitor                  *)
(* ================================================================== *)

(** [main] starts [rfcomm_monitor] and every [handle_client] as threads
    (lines 170 and 183), and the source takes no lock anywhere: the
    interpreter may switch threads between any two statements.  The model
    below is coarser, which loses interleavings but invents none: one call
    of [send_data] is cut once, between its connection check (lines 50-54)
    and the rest (lines 56-70), and a turn of the monitor is one step. *)

Module Threads.
Import Py Sender.

(** Where a call of [send_data] stands. *)
Inductive writer : Type :=
| AtCheck (data : pyval)       (* before line 51 *)
| AtTransmit (data : pyval)    (* the check has passed, before line 57 *)
| Returned (r : res bool).     (* the call is over *)

(** The next step of the writing thread. *)
Definition writer_step (e : env) (wr : writer) (w : world) : writer * world :=
  match wr with
  | AtCheck data =>
    match try_except (ensure_connection e) on_error w with
    | (Ret true, w') => (AtTransmit data, w')
    | (Ret false, w') => (Returned (Ret false), w')
    | (Raise x, w') => (Returned (Raise x), w')
    end
  | AtTransmit data =>
    match try_except (transmit e data) on_error w with
    | (r, w') => (Returned r, w')
    end
  | Returned r => (Returned r, w)
  end.

(** A scheduling decision: which thread runs next, and in which
    environment. *)
Inductive action : Type :=
| SessionStep (e : env)
| MonitorStep (e : env).

Definition step (a : action) (cfg : writer * world) : writer * world :=
  match a with
  | SessionStep e => writer_step e (fst cfg) (snd cfg)
  | MonitorStep e => (fst cfg, snd (rfcomm_monitor [e] (snd cfg)))
  end.

Definition run (sched : list action) (cfg : writer * world) : writer * world :=
  fold_left (fun c a => step a c) sched cfg.

(** A schedule under a lock around [send_data]: the two steps of the write
    are never separated by a monitor turn. *)
Fixpoint serialized (sched : list action) : bool :=
  match sched with
  | [] => true
  | MonitorStep _ :: rest => serialized rest
  | SessionStep _ :: SessionStep _ :: rest => serialized rest
  | SessionStep _ :: _ => false
  end.

End Threads.

(* ================================================================== *)
(** ** Reading traces                                                  *)
(* ================================================================== *)

Module Trace.
Import Py Sender.

(** The world after one more event. *)
Definition log (ev : event) (w : world) : world := snd (emit ev w).

(** The events a computation adds to the trace of [w]. *)
Definition events_of {A} (c : M A) (w : world) : list event :=
  skipn (List.length (trace w)) (trace (snd (c w))).

(** The byte strings handed to [ser.write]. *)
Fixpoint serial_writes (tr : list event) : list bytes :=
  match tr with
  | [] => []
  | SerialWrite d _ :: r => d :: serial_writes r
  | _ :: r => serial_writes r
  end.

(** The byte strings sent to client [c]. *)
Fixpoint replies (c : socket) (tr : list event) : list bytes :=
  match tr with
  | [] => []
  | SockSend c' d _ :: r =>
    if Nat.eqb c c' then d :: replies c r else replies c r
  | _ :: r => replies c r
  end.

(** How often the socket [c] was closed. *)
Fixpoint closes (c : socket) (tr : list event) : nat :=
  match tr with
  | [] => 0%nat
  | SockClose c' :: r => if Nat.eqb c c' then S (closes c r) else closes c r
  | _ :: r => closes c r
  end.

(** How often the socket file was unlinked. *)
Fixpoint unlinks (tr : list event) : nat :=
  match tr with
  | [] => 0%nat
  | Unlink :: r => S (unlinks r)
  | _ :: r => unlinks r
  end.

(** How often [serial.Serial(...)] was called. *)
Fixpoint opens (tr : list event) : nat :=
  match tr with
  | [] => 0%nat
  | SerialOpen _ :: r => S (opens r)
  | _ :: r => opens r
  end.

(** [w'] comes after [w] by steps that leave the registry and the stop
    flag alone and close no client socket. *)
Definition quiet (w w' : world) : Prop :=
  clients w' = clients w /\
  exit_flag w' = exit_flag w /\
  exists evs, trace w' = trace w ++ evs /\ forall c, closes c evs = 0%nat.

(** A computation all of whose runs are quiet. *)
Definition Quiet {A} (m : M A) : Prop := forall w, quiet w (snd (m w)).

End Trace.


(* ================================================================== *)
(** ** Concrete worlds and environments                                *)
(* ================================================================== *)

Module Examples.
Import Py Sender.

(** The service right after start-up, before any connection. *)
Definition idle_world : world := mkWorld None [] false true [].

(** The service with the serial port open. *)
Definition connected_world : world :=
  mkWorld (Some (mkSerial true)) [] false true [].

(** The port is listed and every call succeeds. *)
Definition port_up : env := mkEnv [RFCOMM_PORT] None None None None None.

(** The port is not listed. *)
Definition port_down : env := mkEnv [] None None None None None.

(** The port is listed, the write fails. *)
Definition port_stuck : env :=
  mkEnv [RFCOMM_PORT] None (Some (SerialException 5)) None None None.

(** A [str(e)] for the examples. *)
Definition plain_text : exn -> pystr := fun _ => s_lit "error".

End Examples.


(* ================================================================== *)
(** ** Further notions for stating properties                          *)
(* ================================================================== *)

Module Props.
Import Py Sender Trace.

(** [ser] is [None] or an open handle: no closed [Serial] object is kept. *)
Definition live (w : world) : Prop := ser_is_closed_handle w = false.

(** A computation that keeps the handle live. *)
Definition Live {A} (m : M A) : Prop := forall w, live w -> live (snd (m w)).

(** [l1] is [l2] with some elements left out, the order kept. *)
Inductive subseq {A : Type} : list A -> list A -> Prop :=
| subseq_nil : subseq [] []
| subseq_skip (x : A) (l1 l2 : list A) : subseq l1 l2 -> subseq l1 (x :: l2)
| subseq_take (x : A) (l1 l2 : list A) :
    subseq l1 l2 -> subseq (x :: l1) (x :: l2).

(** What reaches the port for a received chunk: its text, stripped,
    encoded again, with a newline. *)
Definition forwarded (data : bytes) : option bytes :=
  match decode data with
  | Some s =>
    match encode (strip s) with
    | Some body => Some (ensure_newline body)
    | None => None
    end
  | None => None
  end.

(** The forwarded form of the chunks a script delivers, in order. *)
Fixpoint forwards (script : list (env * res bytes)) : list bytes :=
  match script with
  | [] => []
  | (_, Ret data) :: rest =>
    match forwarded data with
    | Some x => x :: forwards rest
    | None => forwards rest
    end
  | (_, Raise _) :: rest => forwards rest
  end.

(** Every turn of the script delivers a chunk that is not empty and is
    UTF-8, in an environment where the port accepts the write and the
    client the reply. *)
Definition healthy_turn (t : env * res bytes) : Prop :=
  write_fault (fst t) = None /\ send_fault (fst t) = None /\
  exists data, snd t = Ret data /\ data <> [] /\ decode data <> None.

End Props.


(* ================================================================== *)
(** ** A state and exception monad over any state                      *)
(* ================================================================== *)

Module St.
Import Sender.

Section Monad.

Context {S : Type}.

Definition ST (A : Type) : Type := S -> res A * S.

Definition pure {A} (a : A) : ST A := fun s => (Ret a, s).

Definition throw {A} (x : exn) : ST A := fun s => (Raise x, s).

Definition of_res {A} (r : res A) : ST A := fun s => (r, s).

Definition state : ST S := fun s => (Ret s, s).

Definition and_then {A B} (c : ST A) (k : A -> ST B) : ST B :=
  fun s =>
    match c s with
    | (Ret a, s') => k a s'
    | (Raise x, s') => (Raise x, s')
    end.

(** [try: c  except Exception as e: h e] *)
Definition catch {A} (c : ST A) (h : exn -> ST A) : ST A :=
  fun s =>
    match c s with
    | (Ret a, s') => (Ret a, s')
    | (Raise x, s') => h x s'
    end.

(** [try: c  except: pass] *)
Definition ignore_errors (c : ST unit) : ST unit := catch c (fun _ => pure tt).

(** An external call that raises what the environment says. *)
Definition throw_if (f : option exn) : ST unit :=
  match f with
  | Some x => throw x
  | None => pure tt
  end.

End Monad.

Declare Scope st_scope.
Delimit Scope st_scope with st.
Notation "x <- c ;; k" := (and_then c (fun x => k))
  (at level 61, c at next level, right associativity) : st_scope.
Notation "c ;; k" := (and_then c (fun _ => k))
  (at level 61, right associativity) : st_scope.

End St.

(* ================================================================== *)
(** ** The producers' side of the socket                               *)
(* ================================================================== *)

(** [connect_to_sender] and [send_to_bluetooth], which
    [esp32_beacon_listener.py] (lines 16-67) and
    [bluetooth_beacons_scanner_v2.py] (lines 30-80) both have, word for
    word. *)

Module Producer.
Import Py Sender St.

Definition BLUETOOTH_SENDER_SOCKET : string := "/tmp/bluetooth_sender.sock".

(** What a producer does to the outside. *)
Inductive pevent : Type :=
| NewSocket (c : socket)                      (* [socket.socket(AF_UNIX, SOCK_STREAM)] *)
| Connect (c : socket) (ok : bool)            (* [sender_socket.connect(...)] *)
| CloseSocket (c : socket)                    (* [sender_socket.close()] *)
| Send (c : socket) (data : bytes) (ok : bool)  (* [sender_socket.send(...)] *)
| Recv (c : socket) (r : res bytes).          (* [sender_socket.recv(1024)] *)

(** The global [sender_socket] and the events so far, oldest first. *)
Record pworld : Type := mkPworld {
  sender_socket : option socket;
  ptrace : list pevent
}.

(** What the outside answers while one call runs. *)
Record penv : Type := mkPenv {
  new_socket : socket;           (* the object [socket.socket(...)] returns *)
  socket_fault : option exn;     (* what [socket.socket(...)] raises, if anything *)
  connect_fault : option exn;    (* what [connect] raises *)
  pclose_fault : option exn;     (* what [close] raises *)
  psend_fault : option exn;      (* what [send] raises *)
  response : res bytes           (* what [recv(1024)] returns or raises *)
}.

Definition P (A : Type) : Type := @St.ST pworld A.

Open Scope st_scope.

Definition pemit (ev : pevent) : P unit :=
  fun w => (Ret tt, mkPworld (sender_socket w) (ptrace w ++ [ev])).

Definition set_sender_socket (s : option socket) : P unit :=
  fun w => (Ret tt, mkPworld s (ptrace w)).

(** A method call on [sender_socket], which is [None] or a socket. *)
Definition on_socket {A} (attr : string) (k : socket -> P A) : P A :=
  w <- St.state ;;
  match sender_socket w with
  | Some c => k c
  | None => St.throw (AttributeError attr)
  end.

(** [connect_to_sender()] *)
Definition connect_to_sender (e : penv) : P bool :=
  St.catch
    (w <- St.state ;;
     match sender_socket w with
     | Some c => St.ignore_errors (pemit (CloseSocket c) ;; St.throw_if (pclose_fault e))
     | None => St.pure tt
     end ;;
     St.throw_if (socket_fault e) ;;
     pemit (NewSocket (new_socket e)) ;;
     set_sender_socket (Some (new_socket e)) ;;
     on_socket "connect"
       (fun c => pemit (Connect c (no_fault (connect_fault e))) ;;
                 St.throw_if (connect_fault e)) ;;
     St.pure true)
    (fun _ => set_sender_socket None ;; St.pure false).

(** The argument of [send_to_bluetooth]: a [dict], of which
    [json.dumps(data)] matters (a text, or the exception it raises), or
    any other object, of which [str(data)] does. *)
Inductive pdata : Type :=
| Dict (dumps : res pystr)
| Obj (str_of : pystr).

(** [data_str.endswith('\n')] *)
Definition str_ends_with_newline (s : pystr) : bool :=
  match rev s with
  | c :: _ => c =? nl
  | [] => false
  end.

(** The lines that build [data_str]. *)
Definition data_str (data : pdata) : res pystr :=
  match data with
  | Dict (Ret j) => Ret (j ++ [nl])
  | Dict (Raise x) => Raise x
  | Obj s => Ret (if str_ends_with_newline s then s else s ++ [nl])
  end.

(** [response == "ACK"] *)
Definition is_ack (response : pystr) : bool :=
  if list_eq_dec N.eq_dec response (s_lit "ACK") then true else false.

(** [send_to_bluetooth(data)] *)
Definition send_to_bluetooth (e : penv) (data : pdata) : P bool :=
  St.catch
    (w <- St.state ;;
     connected <- match sender_socket w with
                  | None => connect_to_sender e
                  | Some _ => St.pure true
                  end ;;
     if connected
     then
       text <- St.of_res (data_str data) ;;
       msg <- St.of_res (str_encode text) ;;
       on_socket "send"
         (fun c => pemit (Send c msg (no_fault (psend_fault e))) ;;
                   St.throw_if (psend_fault e)) ;;
       reply <- on_socket "recv"
                  (fun c => pemit (Recv c (response e)) ;;
                            St.of_res (response e)) ;;
       answer <- St.of_res (bytes_decode reply) ;;
       St.pure (is_ack (strip answer))
     else St.pure false)
    (fun _ => set_sender_socket None ;; St.pure false).

Close Scope st_scope.

End Producer.

(* ================================================================== *)
(** ** The scanner's RSSI                                              *)
(* ================================================================== *)

Module Scanner.
Import Py.

(** The value of a hexadecimal digit. *)
Definition hex_digit (c : N) : option Z :=
  if in_range 48 57 c then Some (Z.of_N c - 48)%Z
  else if in_range 65 70 c then Some (Z.of_N c - 55)%Z
  else if in_range 97 102 c then Some (Z.of_N c - 87)%Z
  else None.

Fixpoint hex_digits (acc : Z) (s : pystr) : option Z :=
  match s with
  | [] => Some acc
  | c :: r =>
    match hex_digit c with
    | Some d => hex_digits (16 * acc + d)%Z r
    | None => None
    end
  end.

(** [int(rssi, 16)] on a string of hexadecimal digits, which is all that
    the expression of line 176 captures ([[0-9A-F]+]).  [None] is the
    [ValueError] for the empty string and for a character that is no
    digit; the other spellings Python's [int] reads (a sign, [0x],
    underscores, blanks around) do not occur there and are left out. *)
Definition int_16 (s : pystr) : option Z :=
  match s with
  | [] => None
  | _ :: _ => hex_digits 0 s
  end.

(** What the expression of line 176 captures for the RSSI: [[0-9A-F]+]. *)
Definition captured (s : pystr) : Prop :=
  s <> [] /\ Forall (fun c => in_range 48 57 c || in_range 65 70 c = true) s.

(** [rssi_to_decimal(rssi)] (lines 82-92 of
    [bluetooth_beacons_scanner_v2.py]). *)
Definition rssi_to_decimal (rssi : pystr) : option Z :=
  match int_16 rssi with
  | None => None
  | Some rssi_int =>
    Some (if negb (Z.land rssi_int 0x8000 =? 0)%Z
          then (- (Z.land (Z.lnot rssi_int) 0xFFFF + 1))%Z
          else rssi_int)
  end.

End Scanner.


(* ================================================================== *)
(** ** The main thread of the service                                  *)
(* ================================================================== *)

(** [main()] (lines 151-196 of [bluetooth_data_sender.py]) as the main
    thread runs it.  The threads it starts are recorded, not run.  The
    handlers of line 155-156 run [cleanup()] in the main thread when
    SIGINT or SIGTERM arrives; the model lets a signal arrive while
    [server.accept()] blocks, where the interpreter runs the handler and
    then resumes the call, or lets the handler's exception out of it. *)

Module Service.
Import Py Sender St.

Inductive thread : Type :=
| MonitorThread                 (* [target=rfcomm_monitor] *)
| ClientThread (c : socket).    (* [target=handle_client, args=(client_sock,)] *)

(** What [server.accept()] comes back with. *)
Inductive accepted : Type :=
| Client (c : socket)
| Timeout                       (* [socket.timeout] after one second *)
| AcceptError (x : exn).

(** What the main thread does besides the calls of [Sender]. *)
Inductive sevent : Type :=
| Bind (ok : bool)              (* [socket.socket(...)], [server.bind(...)] *)
| Listen (ok : bool)            (* [server.listen(5)] *)
| Chmod (ok : bool)             (* [os.chmod(UNIX_SOCKET_PATH, 0o777)] *)
| Start (t : thread)            (* [Thread(...).start()] *)
| Accept (r : accepted)         (* [server.accept()] *)
| ServerClose.                  (* [server.close()] *)

(** The environment of the start-up (lines 158-174). *)
Record senv : Type := mkSenv {
  core : env;
  bind_fault : option exn;
  listen_fault : option exn;
  chmod_fault : option exn
}.

(** One call of [server.accept()]: the signal that may arrive while it
    blocks, with the environment its handler's [cleanup()] runs in, and
    what the call comes back with. *)
Record turn : Type := mkTurn {
  interrupt : option env;
  result : accepted
}.

(** The state of the service and the main thread's own events. *)
Definition sworld : Type := world * list sevent.

Definition MS (A : Type) : Type := @ST sworld A.

Open Scope st_scope.

(** A computation of [Sender] run by the main thread. *)
Definition core_run {A} (m : M A) : MS A :=
  fun s => let (r, w') := m (fst s) in (r, (w', snd s)).

Definition semit (ev : sevent) : MS unit :=
  fun s => (Ret tt, (fst s, snd s ++ [ev])).

(** Lines 158-174: the socket file, the listening socket, the monitor
    thread, the first connection attempt. *)
Definition startup (e : senv) : MS unit :=
  s <- St.state ;;
  (if socket_file (fst s) then core_run (unlink (core e)) else St.pure tt) ;;
  semit (Bind (no_fault (bind_fault e))) ;;
  St.throw_if (bind_fault e) ;;
  core_run (set_socket_file true) ;;
  semit (Listen (no_fault (listen_fault e))) ;;
  St.throw_if (listen_fault e) ;;
  semit (Chmod (no_fault (chmod_fault e))) ;;
  St.throw_if (chmod_fault e) ;;
  semit (Start MonitorThread) ;;
  core_run (setup_serial_connection (core e)) ;;
  St.pure tt.

(** Lines 182-184 with the signal that may come first. *)
Definition accept_client (t : turn) : MS unit :=
  match interrupt t with
  | Some e => core_run (cleanup e)
  | None => St.pure tt
  end ;;
  semit (Accept (result t)) ;;
  match result t with
  | Client c => semit (Start (ClientThread c))
  | Timeout => St.throw (OSError 110)
  | AcceptError x => St.throw x
  end.

(** The loop of lines 180-191.  Both [except] clauses only print or
    sleep.  The result is [true] when the loop has been left and [false]
    when the script is used up and the thread sits in [accept]. *)
Fixpoint accept_loop (script : list turn) : MS bool :=
  fun s =>
    if exit_flag (fst s) then St.pure true s
    else
      match script with
      | [] => St.pure false s
      | t :: rest =>
        (St.ignore_errors (accept_client t) ;; accept_loop rest) s
      end.

(** [main()]; [fin] is the environment of the [cleanup()] in [finally]. *)
Definition main (e : senv) (script : list turn) (fin : env) : MS bool :=
  startup e ;;
  left <- accept_loop script ;;
  if left
  then core_run (cleanup fin) ;; semit ServerClose ;; St.pure true
  else St.pure false.

Close Scope st_scope.

(** The first of [bind], [listen] and [chmod] to raise, if any does. *)
Definition startup_fault (e : senv) : option exn :=
  match bind_fault e with
  | Some x => Some x
  | None =>
    match listen_fault e with
    | Some x => Some x
    | None => chmod_fault e
    end
  end.

(** The threads the main thread has started, in order. *)
Fixpoint started (tr : list sevent) : list thread :=
  match tr with
  | [] => []
  | Start t :: r => t :: started r
  | _ :: r => started r
  end.

(** How often the listening socket was closed. *)
Fixpoint server_closes (tr : list sevent) : nat :=
  match tr with
  | [] => 0%nat
  | ServerClose :: r => S (server_closes r)
  | _ :: r => server_closes r
  end.

(** The clients a script hands over, in order. *)
Fixpoint clients_of (script : list turn) : list socket :=
  match script with
  | [] => []
  | t :: r =>
    match result t with
    | Client c => c :: clients_of r
    | _ => clients_of r
    end
  end.

End Service.


(* ================================================================== *)
(** ** One environment per call                                        *)
(* ================================================================== *)

(** [monitor_check] and [process] answer every external call of one turn
    from one environment, so that there the two calls of [comports()] in a
    turn of the monitor agree (line 143, and line 26 inside
    [setup_serial_connection]), and so do the two calls of
    [client_socket.send] that one turn of a session can make (line 122 or
    124, and line 127 in the [except] block).  Here the second call of
    each pair has an environment of its own; with the same environment
    twice these are [monitor_check], [rfcomm_monitor], [process], [serve]
    and [handle_client]. *)

Module Granular.
Import Py Sender.

(** One turn of the loop of [rfcomm_monitor] (lines 143-148): [e] answers
    the test of line 143, [e'] the call of [setup_serial_connection] of
    line 148. *)
Definition monitor_turn (e e' : env) : M unit :=
  w <- get ;;
  if negb (is_rfcomm_available e) || ser_is_closed_handle w
  then
    (if ser_is_open w then serial_close else ret tt) ;;
    set_ser None ;;
    setup_serial_connection e' ;;
    ret tt
  else ret tt.

(** [rfcomm_monitor()] (lines 138-149), two environments per turn. *)
Fixpoint rfcomm_monitor_turns (intervals : list (env * env)) : M unit :=
  fun w =>
    if exit_flag w then ret tt w
    else
      match intervals with
      | [] => ret tt w
      | (e, e') :: rest => (monitor_turn e e' ;; rfcomm_monitor_turns rest) w
      end.

(** The turns in which the port is not listed at line 143 and is listed
    again at line 26. *)
Definition relisted (t : env * env) : bool :=
  negb (is_rfcomm_available (fst t)) && is_rfcomm_available (snd t).

Section Session.

Variable exn_str : exn -> pystr.

(** Lines 114-127: [e] answers [send_data] and the acknowledgement of
    line 122 or 124, [e'] the [send] of line 127. *)
Definition process_turn (e e' : env) (c : socket) (data : bytes) : M unit :=
  try_except
    (s <- lift (bytes_decode data) ;;
     success <- send_data e (PStr (strip s)) ;;
     if success
     then sock_send e c ACK
     else sock_send e c NACK)
    (fun ex =>
       reply <- lift (str_encode (s_lit "ERROR: " ++ exn_str ex ++ [nl])) ;;
       sock_send e' c reply).

(** The [while not exit_flag] loop (lines 109-127) against a script that
    gives, for each turn, the two environments and what [recv] returns. *)
Fixpoint serve_turns (script : list (env * env * res bytes)) (c : socket)
    : M bool :=
  fun w =>
    if exit_flag w then ret true w
    else
      match script with
      | [] => ret false w
      | (e, e', r) :: rest =>
        (data <- sock_recv c r ;;
         match data with
         | [] => ret true
         | _ :: _ => process_turn e e' c data ;; serve_turns rest c
         end) w
      end.

(** [handle_client(client_socket)] (lines 103-136) over such a script. *)
Definition handle_client_turns (script : list (env * env * res bytes))
    (fin : env) (c : socket) : M unit :=
  register c ;;
  left <- try_except (serve_turns script c) (fun _ => ret true) ;;
  if left then finish fin c else ret tt.

End Session.

End Granular.

(* ================================================================== *)
(** ** Threads: the [except] block of a write next to the monitor      *)
(* ================================================================== *)

(** A call of [send_data] cut at three places: after its connection check
    (lines 50-54), where an exception enters the [except] block (line 71),
    and inside that block between the test [ser and ser.is_open] of line
    74 and the [ser.close()] of line 75, which reads the global [ser]
    again.  A turn of the monitor is one step, as in [Threads]. *)

Module Race.
Import Py Sender Threads.

(** Where a call of [send_data] stands. *)
Inductive place : Type :=
| Checking (data : pyval)   (* before line 51 *)
| Writing (data : pyval)    (* the check has passed, before line 57 *)
| Caught                    (* in the [except] block, before line 74 *)
| Closing (tested : bool)   (* line 74 gave [tested], before line 75 or 76 *)
| Over (r : res bool).      (* the call is over *)

(** Lines 75-77, after the test of line 74 gave [tested]. *)
Definition reset_after (tested : bool) : M bool :=
  (if tested then serial_close else ret tt) ;;
  set_ser None ;;
  ret false.

(** The next step of the writing thread. *)
Definition writer_move (e : env) (p : place) (w : world) : place * world :=
  match p with
  | Checking data =>
    match ensure_connection e w with
    | (Ret true, w') => (Writing data, w')
    | (Ret false, w') => (Over (Ret false), w')
    | (Raise _, w') => (Caught, w')
    end
  | Writing data =>
    match transmit e data w with
    | (Ret b, w') => (Over (Ret b), w')
    | (Raise _, w') => (Caught, w')
    end
  | Caught => (Closing (ser_is_open w), w)
  | Closing tested =>
    match reset_after tested w with
    | (r, w') => (Over r, w')
    end
  | Over r => (Over r, w)
  end.

Definition move (a : action) (cfg : place * world) : place * world :=
  match a with
  | SessionStep e => writer_move e (fst cfg) (snd cfg)
  | MonitorStep e => (fst cfg, snd (rfcomm_monitor [e] (snd cfg)))
  end.

Definition play (sched : list action) (cfg : place * world) : place * world :=
  fold_left (fun c a => move a c) sched cfg.

(** No exception has left the call. *)
Definition contained (p : place) : Prop :=
  match p with
  | Over (Raise _) => False
  | _ => True
  end.

(** The only exception that has left the call, if any, is that of
    [close] on [None]. *)
Definition only_close (p : place) : Prop :=
  match p with
  | Over (Raise x) => x = AttributeError "close"
  | _ => True
  end.

(** What holds of the writer as long as no other thread runs: no
    exception has left the call, and at line 75 the handle that line 74
    found open is still there. *)
Definition steady (cfg : place * world) : Prop :=
  match fst cfg with
  | Closing true => ser_is_open (snd cfg) = true
  | Over (Raise _) => False
  | _ => True
  end.

(** No turn of the monitor in the schedule. *)
Definition alone (sched : list action) : bool :=
  forallb (fun a => match a with
                    | SessionStep _ => true
                    | MonitorStep _ => false
                    end) sched.

End Race.

(* ================================================================== *)
(** ** UTF-8 and [strip]: what the service relies on                   *)
(* ================================================================== *)

Module PyFacts.
Import Py.

Ltac Zify.zify_post_hook ::= Z.to_euclidean_division_equations.

Lemma byte_of_to_N (b : byte) : byte_of (Byte.to_N b) = b.
Proof. unfold byte_of. now rewrite Byte.of_to_N. Qed.

Lemma byte_of_eq (n : N) (b : byte) : n = Byte.to_N b -> byte_of n = b.
Proof. intros ->. apply byte_of_to_N. Qed.

Lemma to_N_byte_of (n : N) : n <= 255 -> Byte.to_N (byte_of n) = n.
Proof.
  intros H. unfold byte_of. destruct (Byte.of_N n) eqn:E.
  - now apply Byte.to_of_N.
  - apply Byte.of_N_None_iff in E. lia.
Qed.

Lemma cons_eq {A} (a b : A) (l l' : list A) : a = b -> l = l' -> a :: l = b :: l'.
Proof. congruence. Qed.

Ltac split_range :=
  unfold is_cont, in_range in *;
  repeat match goal with
  | H : andb _ _ = true |- _ => apply andb_prop in H; destruct H
  | H : (_ <=? _) = true |- _ => apply N.leb_le in H
  | H : (_ <? _) = true |- _ => apply N.ltb_lt in H
  | H : (_ <? _) = false |- _ => apply N.ltb_ge in H
  | H : (_ <=? _) = false |- _ => apply N.leb_gt in H
  end.

(** One decoding step, seen from outside: the leading code point, its
    bytes, and what remains. *)
Lemma decode_step (bs : bytes) (s : pystr) :
  decode bs = Some s ->
  bs = [] /\ s = [] \/
  exists c t hd tl,
    s = c :: t /\ bs = hd ++ tl /\ hd <> [] /\
    encode_cp c = Some hd /\ decode tl = Some t.
Proof.
  destruct bs as [|b0 r0]; cbn [decode].
  { intros [= <-]. now left. }
  intros H. right.
  pose proof (Byte.to_N_bounded b0) as B0.
  destruct (Byte.to_N b0 <? 0x80) eqn:L1.
  { destruct (decode r0) as [t|] eqn:E; [|discriminate]. injection H as <-.
    exists (Byte.to_N b0), t, [b0], r0. repeat split; try easy.
    unfold encode_cp. rewrite L1. now rewrite byte_of_to_N. }
  destruct (Byte.to_N b0 <? 0xC2) eqn:L2; [discriminate|].
  destruct (Byte.to_N b0 <? 0xE0) eqn:L3.
  { destruct r0 as [|b1 r1]; [discriminate|].
    destruct (is_cont (Byte.to_N b1)) eqn:C1; [|discriminate].
    destruct (decode r1) as [t|] eqn:E; [|discriminate]. injection H as <-.
    exists ((Byte.to_N b0 - 0xC0) * 64 + (Byte.to_N b1 - 0x80)), t, [b0; b1], r1.
    repeat split; try easy.
    split_range. unfold encode_cp.
    set (c := (Byte.to_N b0 - 192) * 64 + (Byte.to_N b1 - 128)).
    destruct (N.ltb_spec c 0x80); [subst c; lia|].
    destruct (N.ltb_spec c 0x800); [|subst c; lia].
    do 2 f_equal; [|f_equal]; apply byte_of_eq; subst c; lia. }
  destruct (Byte.to_N b0 <? 0xF0) eqn:L4.
  { destruct r0 as [|b1 [|b2 r2]]; try discriminate.
    match type of H with (if ?g then _ else _) = _ =>
      destruct g eqn:G; [|discriminate] end.
    destruct (decode r2) as [t|] eqn:E; [|discriminate]. injection H as <-.
    exists ((Byte.to_N b0 - 0xE0) * 4096 + (Byte.to_N b1 - 0x80) * 64
            + (Byte.to_N b2 - 0x80)), t, [b0; b1; b2], r2.
    repeat split; try easy.
    assert (R : (if Byte.to_N b0 =? 0xE0 then 0xA0 else 0x80) <= Byte.to_N b1
                /\ Byte.to_N b1 <= (if Byte.to_N b0 =? 0xED then 0x9F else 0xBF)
                /\ 0x80 <= Byte.to_N b2 <= 0xBF).
    { split_range. auto. }
    clear G. destruct R as (R1 & R2 & R3). split_range.
    unfold encode_cp.
    set (c := (Byte.to_N b0 - 224) * 4096 + (Byte.to_N b1 - 128) * 64
              + (Byte.to_N b2 - 128)).
    assert (Hc : 0x800 <= c < 0x10000 /\ ~ (0xD800 <= c <= 0xDFFF)
                 /\ 0x80 <= Byte.to_N b1 <= 0xBF).
    { subst c.
      destruct (N.eqb_spec (Byte.to_N b0) 0xE0), (N.eqb_spec (Byte.to_N b0) 0xED);
        lia. }
    clear R1 R2.
    destruct (N.ltb_spec c 0x80); [lia|].
    destruct (N.ltb_spec c 0x800); [lia|].
    destruct (N.ltb_spec c 0x10000); [|lia].
    unfold in_range.
    destruct (N.leb_spec 0xD800 c); cbn [andb];
      [destruct (N.leb_spec c 0xDFFF); [lia|]|];
      f_equal; repeat (apply cons_eq; [apply byte_of_eq; subst c; lia|]);
      reflexivity. }
  destruct (Byte.to_N b0 <? 0xF5) eqn:L5; [|discriminate].
  destruct r0 as [|b1 [|b2 [|b3 r3]]]; try discriminate.
  match type of H with (if ?g then _ else _) = _ =>
    destruct g eqn:G; [|discriminate] end.
  destruct (decode r3) as [t|] eqn:E; [|discriminate]. injection H as <-.
  exists ((Byte.to_N b0 - 0xF0) * 262144 + (Byte.to_N b1 - 0x80) * 4096
          + (Byte.to_N b2 - 0x80) * 64 + (Byte.to_N b3 - 0x80)),
         t, [b0; b1; b2; b3], r3.
  repeat split; try easy.
  assert (R : (if Byte.to_N b0 =? 0xF0 then 0x90 else 0x80) <= Byte.to_N b1
              /\ Byte.to_N b1 <= (if Byte.to_N b0 =? 0xF4 then 0x8F else 0xBF)
              /\ 0x80 <= Byte.to_N b2 <= 0xBF /\ 0x80 <= Byte.to_N b3 <= 0xBF).
  { split_range. auto. }
  clear G. destruct R as (R1 & R2 & R3 & R4). split_range.
  unfold encode_cp.
  set (c := (Byte.to_N b0 - 240) * 262144 + (Byte.to_N b1 - 128) * 4096
            + (Byte.to_N b2 - 128) * 64 + (Byte.to_N b3 - 128)).
  assert (Hc : 0x10000 <= c < 0x110000 /\ 0x80 <= Byte.to_N b1 <= 0xBF).
  { subst c.
    destruct (N.eqb_spec (Byte.to_N b0) 0xF0), (N.eqb_spec (Byte.to_N b0) 0xF4);
      lia. }
  clear R1 R2.
  destruct (N.ltb_spec c 0x80); [lia|].
  destruct (N.ltb_spec c 0x800); [lia|].
  destruct (N.ltb_spec c 0x10000); [lia|].
  destruct (N.ltb_spec c 0x110000); [|lia].
  f_equal; repeat (apply cons_eq; [apply byte_of_eq; subst c; lia|]);
    reflexivity.
Qed.

Lemma decode_encode : forall bs s, decode bs = Some s -> encode s = Some bs.
Proof.
  intros bs. remember (List.length bs) as n eqn:Hn.
  revert bs Hn. induction n as [n IH] using lt_wf_ind.
  intros bs Hn s H.
  destruct (decode_step bs s H) as [[-> ->]|(c & t & hd & tl & -> & -> & Hhd & Hc & Ht)].
  - reflexivity.
  - cbn [encode]. rewrite Hc.
    rewrite (IH (List.length tl)) with (bs := tl) (s := t); auto.
    subst n. rewrite List.length_app. destruct hd; [contradiction|]. cbn. lia.
Qed.

Lemma encode_app (s t : pystr) :
  encode (s ++ t) =
  match encode s, encode t with
  | Some a, Some b => Some (a ++ b)
  | _, _ => None
  end.
Proof.
  induction s as [|c s IH]; cbn [encode app].
  - now destruct (encode t).
  - rewrite IH. destruct (encode_cp c), (encode s), (encode t); try reflexivity.
    now rewrite app_assoc.
Qed.

Lemma encode_s_lit (a : string) : exists b, encode (s_lit a) = Some b.
Proof.
  unfold s_lit. induction (list_byte_of_string a) as [|x l [b Hb]]; cbn [map encode].
  - now exists [].
  - rewrite Hb. destruct (encode_cp (Byte.to_N x)) eqn:E; [eauto|].
    exfalso. pose proof (Byte.to_N_bounded x). unfold encode_cp in E.
    destruct (N.ltb_spec (Byte.to_N x) 0x80); [discriminate|].
    destruct (N.ltb_spec (Byte.to_N x) 0x800); [discriminate|lia].
Qed.

(** *** Stripping *)

Lemma lstrip_suffix (s : pystr) :
  exists pre, s = pre ++ lstrip s /\ forallb isspace pre = true.
Proof.
  induction s as [|c s (pre & Hs & Hp)]; cbn [lstrip].
  - now exists [].
  - destruct (isspace c) eqn:E.
    + exists (c :: pre). cbn. now rewrite E, Hp, <- Hs.
    + now exists [].
Qed.

Lemma strip_middle (s : pystr) :
  exists pre post,
    s = pre ++ strip s ++ post /\
    forallb isspace pre = true /\ forallb isspace post = true.
Proof.
  destruct (lstrip_suffix s) as (pre & Hs & Hpre).
  destruct (lstrip_suffix (rev (lstrip s))) as (q & Hq & Hq').
  exists pre, (rev q). unfold strip, rstrip. repeat split; auto.
  - rewrite <- rev_app_distr, <- Hq, rev_involutive. exact Hs.
  - rewrite forallb_forall in *. intros x Hx. apply Hq'. now apply in_rev.
Qed.

Lemma lstrip_head (s : pystr) (c : N) (t : pystr) :
  lstrip s = c :: t -> isspace c = false.
Proof.
  induction s as [|a s IH]; cbn [lstrip]; [discriminate|].
  destruct (isspace a) eqn:E; [exact IH|]. now intros [= <- <-].
Qed.

(** What [strip] returns does not end in whitespace. *)
Lemma strip_last (s t : pystr) (c : N) :
  strip s = t ++ [c] -> isspace c = false.
Proof.
  unfold strip, rstrip. intros H.
  apply (f_equal (@rev N)) in H. rewrite rev_involutive, rev_unit in H.
  exact (lstrip_head _ _ _ H).
Qed.

Lemma lstrip_snoc_space (s : pystr) (c : N) :
  isspace c = true ->
  lstrip (s ++ [c]) = if forallb isspace s then [] else lstrip s ++ [c].
Proof.
  intros Hc. induction s as [|a s IH]; cbn [lstrip app forallb].
  - now rewrite Hc.
  - destruct (isspace a); cbn [andb]; [exact IH|reflexivity].
Qed.

Lemma lstrip_all_space (s : pystr) : forallb isspace s = true -> lstrip s = [].
Proof.
  induction s as [|a s IH]; cbn [lstrip forallb]; [reflexivity|].
  destruct (isspace a); cbn [andb]; [exact IH|discriminate].
Qed.

(** A trailing whitespace character is stripped away. *)
Lemma strip_snoc_space (s : pystr) (c : N) :
  isspace c = true -> strip (s ++ [c]) = strip s.
Proof.
  intros Hc. unfold strip, rstrip. rewrite (lstrip_snoc_space s c Hc).
  destruct (forallb isspace s) eqn:E.
  - now rewrite (lstrip_all_space s E).
  - rewrite rev_unit. cbn [lstrip]. now rewrite Hc.
Qed.

(** *** Encoded text and the newline byte *)

Lemma encode_cp_last_newline (c : N) (hd pre : bytes) :
  encode_cp c = Some hd -> hd = pre ++ [NL] -> c = nl.
Proof.
  unfold encode_cp, NL, nl. intros H ->.
  assert (A : forall n, 0x80 <= n <= 255 -> byte_of n <> x0a).
  { intros n Hn E. apply (f_equal Byte.to_N) in E.
    rewrite to_N_byte_of in E by lia. cbn in E. lia. }
  destruct (N.ltb_spec c 0x80).
  { injection H as H. destruct pre as [|? [|? ?]]; try discriminate.
    injection H as H. apply (f_equal Byte.to_N) in H.
    rewrite to_N_byte_of in H by lia. cbn in H. lia. }
  destruct (N.ltb_spec c 0x800).
  { injection H as H. destruct pre as [|? [|? [|? ?]]]; try discriminate.
    injection H as _ H. exfalso. apply (A (0x80 + c mod 64)); [lia|easy]. }
  destruct (N.ltb_spec c 0x10000).
  { destruct (in_range 55296 57343 c); [discriminate|].
    injection H as H. destruct pre as [|? [|? [|? [|? ?]]]]; try discriminate.
    injection H as _ _ H. exfalso. apply (A (0x80 + c mod 64)); [lia|easy]. }
  destruct (N.ltb_spec c 0x110000); [|discriminate].
  injection H as H. destruct pre as [|? [|? [|? [|? [|? ?]]]]]; try discriminate.
  injection H as _ _ _ H. exfalso. apply (A (0x80 + c mod 64)); [lia|easy].
Qed.

Lemma encode_cp_nonempty (c : N) (hd : bytes) : encode_cp c = Some hd -> hd <> [].
Proof.
  unfold encode_cp. intros H ->.
  repeat match type of H with
  | (if ?g then _ else _) = _ => destruct g
  end; discriminate.
Qed.

Lemma ends_with_newline_snoc (bs : bytes) (b : byte) :
  ends_with_newline (bs ++ [b]) = Byte.eqb b NL.
Proof. unfold ends_with_newline. now rewrite rev_unit. Qed.

Lemma ends_with_newline_inv (bs : bytes) :
  ends_with_newline bs = true -> exists pre, bs = pre ++ [NL].
Proof.
  destruct bs as [|b0 r] using rev_ind; [discriminate|].
  rewrite ends_with_newline_snoc. intros H.
  apply Byte.byte_dec_bl in H. subst. eauto.
Qed.

(** The bytes of a text end in a newline only if the text does. *)
Lemma encode_ends_with_newline (s : pystr) (bs : bytes) :
  encode s = Some bs -> ends_with_newline bs = true ->
  exists t, s = t ++ [nl].
Proof.
  destruct s as [|c s _] using rev_ind.
  { intros [= <-]. discriminate. }
  rewrite encode_app. cbn [encode].
  destruct (encode s) as [a|]; [|discriminate].
  destruct (encode_cp c) as [hd|] eqn:Ec; [|discriminate].
  intros [= <-] H. rewrite app_nil_r in H.
  destruct (ends_with_newline_inv _ H) as (pre & Hpre).
  destruct hd as [|h hd] using rev_ind.
  { now apply encode_cp_nonempty in Ec. }
  rewrite app_assoc in Hpre. apply app_inj_tail in Hpre. destruct Hpre as [_ ->].
  exists s. f_equal. f_equal. eapply encode_cp_last_newline; eauto.
Qed.

Lemma isspace_nl : isspace nl = true.
Proof. reflexivity. Qed.

(** The stripped text of a chunk: it has bytes whenever the chunk decodes,
    and they never end in a newline. *)
Lemma strip_encodes (data : bytes) (s : pystr) :
  decode data = Some s ->
  exists body, encode (strip s) = Some body /\ ends_with_newline body = false.
Proof.
  intros H. apply decode_encode in H.
  destruct (strip_middle s) as (pre & post & Hs & _).
  rewrite Hs, !encode_app in H.
  destruct (encode (strip s)) as [body|] eqn:E.
  - exists body. split; [reflexivity|].
    destruct (ends_with_newline body) eqn:En; [|reflexivity].
    destruct (encode_ends_with_newline _ _ E En) as (t & Ht).
    apply strip_last in Ht. now rewrite isspace_nl in Ht.
  - destruct (encode pre); discriminate.
Qed.


(** *** Decoding what was encoded *)

Ltac decide_tests :=
  repeat match goal with
  | |- context [?a =? ?b] => destruct (N.eqb_spec a b); try lia
  | |- context [?a <? ?b] => destruct (N.ltb_spec a b); try lia
  | |- context [?a <=? ?b] => destruct (N.leb_spec a b); try lia
  end.

Lemma decode_cons (b0 : byte) (r0 : bytes) :
  decode (b0 :: r0) =
  let n0 := Byte.to_N b0 in
  if n0 <? 0x80 then option_map (cons n0) (decode r0)
  else if n0 <? 0xC2 then None
  else if n0 <? 0xE0 then
    match r0 with
    | b1 :: r1 =>
      let n1 := Byte.to_N b1 in
      if is_cont n1
      then option_map (cons ((n0 - 0xC0) * 64 + (n1 - 0x80))) (decode r1)
      else None
    | _ => None
    end
  else if n0 <? 0xF0 then
    match r0 with
    | b1 :: b2 :: r2 =>
      let n1 := Byte.to_N b1 in
      let n2 := Byte.to_N b2 in
      if in_range (if n0 =? 0xE0 then 0xA0 else 0x80)
                  (if n0 =? 0xED then 0x9F else 0xBF) n1
         && is_cont n2
      then option_map
             (cons ((n0 - 0xE0) * 4096 + (n1 - 0x80) * 64 + (n2 - 0x80)))
             (decode r2)
      else None
    | _ => None
    end
  else if n0 <? 0xF5 then
    match r0 with
    | b1 :: b2 :: b3 :: r3 =>
      let n1 := Byte.to_N b1 in
      let n2 := Byte.to_N b2 in
      let n3 := Byte.to_N b3 in
      if in_range (if n0 =? 0xF0 then 0x90 else 0x80)
                  (if n0 =? 0xF4 then 0x8F else 0xBF) n1
         && is_cont n2 && is_cont n3
      then option_map
             (cons ((n0 - 0xF0) * 262144 + (n1 - 0x80) * 4096
                    + (n2 - 0x80) * 64 + (n3 - 0x80)))
             (decode r3)
      else None
    | _ => None
    end
  else None.
Proof. reflexivity. Qed.

Lemma Some_eq {A} (x y : A) : Some x = Some y -> y = x.
Proof. congruence. Qed.

Lemma decode_encode_cp (c : N) (hd tl : bytes) :
  encode_cp c = Some hd ->
  decode (hd ++ tl) = option_map (cons c) (decode tl).
Proof.
  unfold encode_cp. intros H.
  destruct (N.ltb_spec c 0x80).
  { apply Some_eq in H. subst hd.
    unfold app. rewrite decode_cons. cbv beta iota zeta.
    rewrite to_N_byte_of by lia.
    destruct (N.ltb_spec c 0x80); [reflexivity|lia]. }
  destruct (N.ltb_spec c 0x800).
  { apply Some_eq in H. subst hd.
    unfold app. rewrite decode_cons. cbv beta iota zeta.
    rewrite !to_N_byte_of by lia.
    unfold is_cont, in_range. decide_tests. cbv beta iota delta [andb].
    do 2 f_equal. lia. }
  destruct (N.ltb_spec c 0x10000).
  { unfold in_range in H.
    assert (Hs : ~ (0xD800 <= c <= 0xDFFF)).
    { intros [Ha Hb]. apply N.leb_le in Ha, Hb. now rewrite Ha, Hb in H. }
    destruct ((55296 <=? c) && (c <=? 57343)); [discriminate|].
    apply Some_eq in H. subst hd.
    unfold app. rewrite decode_cons. cbv beta iota zeta.
    rewrite !to_N_byte_of by lia.
    unfold is_cont, in_range.
    decide_tests; cbv beta iota delta [andb]; do 2 f_equal; lia. }
  destruct (N.ltb_spec c 0x110000); [|discriminate].
  apply Some_eq in H. subst hd.
  unfold app. rewrite decode_cons. cbv beta iota zeta.
  rewrite !to_N_byte_of by lia.
  unfold is_cont, in_range.
  decide_tests; cbv beta iota delta [andb]; do 2 f_equal; lia.
Qed.

Lemma encode_decode_app (s : pystr) (bs tl : bytes) :
  encode s = Some bs -> decode (bs ++ tl) = option_map (app s) (decode tl).
Proof.
  revert bs. induction s as [|c s IH]; cbn [encode]; intros bs H.
  - injection H as <-. cbn. now destruct (decode tl).
  - destruct (encode_cp c) as [hd|] eqn:Ec; [|discriminate].
    destruct (encode s) as [b|]; [|discriminate]. injection H as <-.
    rewrite <- app_assoc, (decode_encode_cp _ _ _ Ec), (IH b eq_refl).
    now destruct (decode tl).
Qed.

(** The bytes [send_data] builds from a [str] decode again at line 69. *)
Lemma encode_decode (s : pystr) (bs : bytes) :
  encode s = Some bs -> decode bs = Some s.
Proof.
  intros H. rewrite <- (app_nil_r bs), (encode_decode_app _ _ [] H).
  cbn. now rewrite app_nil_r.
Qed.

Lemma encode_decode_newline (s : pystr) (bs : bytes) :
  encode s = Some bs -> decode (bs ++ [NL]) = Some (s ++ [nl]).
Proof. intros H. now rewrite (encode_decode_app _ _ [NL] H). Qed.

End PyFacts.

(* ================================================================== *)
(** ** The transport: [send_data], [setup_serial_connection], the monitor *)
(* ================================================================== *)

Module TransportFacts.
Import Py Sender Trace PyFacts.

(** Unfolds the monad and the primitives down to matches on the world. *)
Ltac unfold_py :=
  cbv beta iota zeta delta
    [send_data ensure_connection transmit setup_serial_connection
     reset_connection serial_open serial_close serial_write sock_send
     sock_recv sock_close unlink emit get set_ser set_clients set_exit_flag
     set_socket_file bind ret raise try_except try_pass fault no_fault
     to_bytes str_encode bytes_decode lift on_error register
     ser_is_open ser_is_closed_handle truthy monitor_check log
     ser clients exit_flag socket_file trace is_open fst snd negb orb].

(** Splits on the innermost test the goal is stuck on. *)
Ltac case_py :=
  repeat match goal with
  | |- context [match ?x with _ => _ end] =>
    lazymatch x with
    | context [match _ with _ => _ end] => fail
    | _ => destruct x eqn:?; cbv beta iota zeta
    end
  end.

Ltac destruct_world w :=
  let s := fresh "s" in
  destruct w as [s ? ? ? ?]; destruct s as [[[|]]|].

Lemma skipn_app_exact {A} (l l' : list A) : skipn (List.length l) (l ++ l') = l'.
Proof. induction l; cbn; auto. Qed.

Lemma events_of_intro {A} (c : M A) (w : world) (evs : list event) :
  trace (snd (c w)) = trace w ++ evs -> events_of c w = evs.
Proof. unfold events_of. intros ->. apply skipn_app_exact. Qed.

(** [send_data] touches neither the registry, nor the stop flag, nor the
    socket file. *)
Lemma send_data_frame (e : env) (data : pyval) (w : world) :
  clients (snd (send_data e data w)) = clients w /\
  exit_flag (snd (send_data e data w)) = exit_flag w /\
  socket_file (snd (send_data e data w)) = socket_file w.
Proof.
  destruct_world w; unfold_py; case_py; auto.
Qed.

(** A first call on a missing handle, with the port listed, opens it. *)
Lemma send_data_reconnects (e : env) (data : pyval) (w : world) :
  ser w = None -> is_rfcomm_available e = true ->
  exists rest,
    events_of (send_data e data) w = SerialOpen (no_fault (open_fault e)) :: rest.
Proof.
  destruct w as [s cl ef sf tr]. cbn [ser]. intros -> Ha.
  unfold events_of. unfold_py. rewrite Ha. case_py;
    cbv beta iota zeta delta [snd trace]; rewrite <- ?app_assoc;
    rewrite skipn_app_exact; cbn [app]; eauto.
Qed.

(** A call of [send_data] that runs from start to end with no other
    thread in between returns a boolean and lets no exception out.  When
    the connect raises, or the write raises, it returns [False] with [ser]
    reset to [None]; the handle is closed where it was open (after a failed
    write; at a failed connect there is no open handle); and the next call
    therefore starts with a new connection attempt. *)
Lemma send_data_alone (e : env) (data : pyval) (w : world) :
  exists b w' evs,
    send_data e data w = (Ret b, w') /\
    trace w' = trace w ++ evs /\
    (In (SerialOpen false) evs ->
       b = false /\ ser w' = None /\ evs = [SerialOpen false]) /\
    (forall x, In (SerialWrite x false) evs ->
       b = false /\ ser w' = None /\
       exists pre, evs = pre ++ [SerialWrite x false; SerialClose]) /\
    (ser w' = None ->
     forall e' data', is_rfcomm_available e' = true ->
       exists rest,
         events_of (send_data e' data') w'
         = SerialOpen (no_fault (open_fault e')) :: rest).
Proof.
  assert (K : forall w' : world, ser w' = None ->
     forall e' data', is_rfcomm_available e' = true ->
       exists rest,
         events_of (send_data e' data') w'
         = SerialOpen (no_fault (open_fault e')) :: rest).
  { intros. now apply send_data_reconnects. }
  destruct_world w; unfold_py; case_py;
    (eexists _, _, _; split; [reflexivity|]; cbn [trace ser];
     rewrite <- ?app_assoc; cbn [app];
     split; [first [reflexivity | symmetry; apply app_nil_r]|]);
    (split; [|split; [|intros Hs ? ? Ha; apply K; [exact Hs|exact Ha]]]).
  all: try (intros H; cbn in H; intuition discriminate).
  all: try (intros x H; cbn in H; intuition (try discriminate)).
  all: cbn [In]; intros.
  all: repeat match goal with H : _ \/ _ |- _ => destruct H end;
       try discriminate; try contradiction.
  all: repeat split; auto.
  all: match goal with H : SerialWrite _ _ = SerialWrite _ _ |- _ =>
         injection H as <- end.
  all: try (now exists []).
  all: try (now eexists [_]).
Qed.


Lemma decode_ensure_newline (s : pystr) (body : bytes) :
  encode s = Some body -> exists t, decode (ensure_newline body) = Some t.
Proof.
  intros H. unfold ensure_newline. destruct (ends_with_newline body).
  - rewrite (encode_decode _ _ H). eauto.
  - rewrite (encode_decode_newline _ _ H). eauto.
Qed.

(** C2, as the code has it.  A write on a missing or closed handle calls
    [setup_serial_connection] itself; the call is taken as it runs with no
    other thread in between.  It fails at once, touching nothing, only
    when the port is not listed.  With the port listed it opens the
    port.  A failing open gives [False] with [ser = None].  After a
    successful open, an argument that has no bytes (a text that cannot be
    encoded) is not written: the call closes the new handle, resets [ser]
    and returns [False].  Otherwise the bytes, ended by a newline, are
    written on the new handle, and the call returns [True], with the port
    left open, exactly when the write succeeds and the bytes written are
    UTF-8; if the write raises, or if the bytes are no UTF-8 (then the log
    line of line 69 raises after the write), it closes the handle, resets
    [ser] and returns [False].  The bytes of a text are always UTF-8. *)
Theorem send_data_when_disconnected (e : env) (data : pyval) (w : world) :
  ser_is_open w = false ->
  (is_rfcomm_available e = false -> send_data e data w = (Ret false, w)) /\
  (is_rfcomm_available e = true -> open_fault e <> None ->
     fst (send_data e data w) = Ret false /\
     ser (snd (send_data e data w)) = None /\
     events_of (send_data e data) w = [SerialOpen false]) /\
  (is_rfcomm_available e = true -> open_fault e = None ->
     (forall x, to_bytes data = Raise x ->
        fst (send_data e data w) = Ret false /\
        ser (snd (send_data e data w)) = None /\
        events_of (send_data e data) w = [SerialOpen true; SerialClose]) /\
     (forall body, to_bytes data = Ret body ->
        (write_fault e = None -> decode (ensure_newline body) <> None ->
           fst (send_data e data w) = Ret true /\
           ser_is_open (snd (send_data e data w)) = true /\
           events_of (send_data e data) w
           = [SerialOpen true; SerialWrite (ensure_newline body) true]) /\
        (write_fault e <> None \/ decode (ensure_newline body) = None ->
           fst (send_data e data w) = Ret false /\
           ser (snd (send_data e data w)) = None /\
           events_of (send_data e data) w
           = [SerialOpen true;
              SerialWrite (ensure_newline body) (no_fault (write_fault e));
              SerialClose]))) /\
  (forall s body, data = PStr s \/ data = POther s -> encode s = Some body ->
     to_bytes data = Ret body /\ decode (ensure_newline body) <> None).
Proof.
  intros Hw. split; [|split; [|split]].
  - intros Ha. destruct_world w; try discriminate; unfold_py; now rewrite Ha.
  - intros Ha Ho. unfold events_of.
    destruct_world w; try discriminate; unfold_py; rewrite Ha;
      (destruct (open_fault e); [|congruence]);
      cbv beta iota zeta delta [fst snd ser trace];
      rewrite <- ?app_assoc, skipn_app_exact; repeat split.
  - intros Ha Ho. split.
    + intros x Hx. unfold events_of.
      destruct_world w; try discriminate; unfold_py; unfold to_bytes in Hx;
        rewrite Ha, Ho; cbv beta iota;
        (destruct data as [s|b|s]; [| discriminate |]);
        unfold str_encode in *; destruct (encode s); try discriminate;
        cbv beta iota zeta delta [fst snd ser trace];
        rewrite <- ?app_assoc, skipn_app_exact; repeat split.
    + intros body Hb.
      assert (E : forall w0 : world, ser_is_open w0 = false ->
                send_data e data w0
                = match write_fault e, decode (ensure_newline body) with
                  | None, Some _ =>
                    (Ret true,
                     mkWorld (Some (mkSerial true)) (clients w0) (exit_flag w0)
                       (socket_file w0)
                       (trace w0 ++ [SerialOpen true;
                                     SerialWrite (ensure_newline body) true]))
                  | f, _ =>
                    (Ret false,
                     mkWorld None (clients w0) (exit_flag w0) (socket_file w0)
                       (trace w0 ++ [SerialOpen true;
                                     SerialWrite (ensure_newline body)
                                       (no_fault f);
                                     SerialClose]))
                  end).
      { intros w0 H0. unfold to_bytes, str_encode in Hb.
        destruct data as [s|b|s];
          [destruct (encode s) eqn:En; [|discriminate]
          |
          |destruct (encode s) eqn:En; [|discriminate]];
          injection Hb as ->.
        all: destruct_world w0; try discriminate; unfold_py;
          rewrite Ha, Ho, ?En; cbv beta iota;
          destruct (write_fault e); cbv beta iota;
          try destruct (decode (ensure_newline body)); cbv beta iota;
          rewrite <- ?app_assoc; cbn [app]; reflexivity. }
      unfold events_of. rewrite (E w Hw). split.
      * intros Hf Hd. rewrite Hf.
        destruct (decode (ensure_newline body)); [|contradiction].
        cbn [fst snd ser_is_open ser is_open trace].
        now rewrite skipn_app_exact.
      * intros [Hf|Hd].
        -- destruct (write_fault e); [|contradiction].
           cbn [fst snd ser trace no_fault]. now rewrite skipn_app_exact.
        -- rewrite Hd. destruct (write_fault e);
             cbn [fst snd ser trace no_fault]; now rewrite skipn_app_exact.
  - intros s body Hd He.
    assert (Hb : to_bytes data = Ret body).
    { destruct Hd as [->| ->]; unfold to_bytes, str_encode; now rewrite He. }
    split; [exact Hb|].
    destruct (decode_ensure_newline _ _ He) as (t & Ht). now rewrite Ht.
Qed.

Lemma send_data_when_disconnected_witness :
  send_data Examples.port_down (PStr (s_lit "hi")) Examples.idle_world
  = (Ret false, Examples.idle_world).
Proof.
  apply (send_data_when_disconnected Examples.port_down (PStr (s_lit "hi"))
           Examples.idle_world); reflexivity.
Defined.

(** C2, at a concrete input: the handle is absent, the port is listed, and
    the write neither fails nor leaves the reconnection to the monitor: it
    opens the port itself and succeeds. *)
Lemma send_data_opens_the_port :
  ser_is_open Examples.idle_world = false /\
  send_data Examples.port_up (PStr (s_lit "hi")) Examples.idle_world
  = (Ret true,
     mkWorld (Some (mkSerial true)) [] false true
       [SerialOpen true; SerialWrite (b_lit "hi" ++ [NL]) true]).
Proof. split; reflexivity. Qed.

(** One turn of the monitor with no handle and the port listed does
    nothing at all. *)
Lemma monitor_check_skips (e : env) (w : world) :
  ser w = None -> is_rfcomm_available e = true ->
  monitor_check e w = (Ret tt, w).
Proof.
  destruct w as [s cl ef sf tr]. cbn [ser]. intros -> Ha.
  unfold_py. now rewrite Ha.
Qed.

(** Once [ser] is [None], the monitor does nothing for as long as the port
    stays listed: its test [ser and not ser.is_open] is false for [None]. *)
Lemma monitor_skips_missing_handle (intervals : list env) (w : world) :
  ser w = None ->
  Forall (fun e => is_rfcomm_available e = true) intervals ->
  rfcomm_monitor intervals w = (Ret tt, w).
Proof.
  intros Hs H. induction H as [|e rest He _ IH]; cbn [rfcomm_monitor].
  - now destruct (exit_flag w).
  - destruct (exit_flag w) eqn:Hf; [reflexivity|].
    unfold bind. rewrite (monitor_check_skips e w Hs He). exact IH.
Qed.

(** A turn of the monitor that finds the port unlisted drops the handle
    and opens nothing. *)
Lemma monitor_check_port_lost (e : env) (w : world) :
  is_rfcomm_available e = false ->
  monitor_check e w
  = (Ret tt,
     mkWorld None (clients w) (exit_flag w) (socket_file w)
       (trace w ++ if ser_is_open w then [SerialClose] else [])).
Proof.
  intros Ha. destruct_world w; unfold_py; rewrite Ha; cbv beta iota;
    rewrite ?app_nil_r; reflexivity.
Qed.

(** C3, on the code.  The transport is lost (a turn of the monitor finds
    the port unlisted) and the port then comes back and stays listed: over
    any number of further turns the monitor never calls [serial.Serial]
    and [ser] is still [None] at the end.  The turn that saw the loss left
    [ser = None], and for [None] the monitor's test
    [not is_rfcomm_available() or (ser and not ser.is_open)] is false. *)
Theorem monitor_does_not_recover (lost : env) (back : list env) (w : world) :
  exit_flag w = false ->
  is_rfcomm_available lost = false ->
  Forall (fun e => is_rfcomm_available e = true) back ->
  fst (rfcomm_monitor (lost :: back) w) = Ret tt /\
  ser (snd (rfcomm_monitor (lost :: back) w)) = None /\
  opens (events_of (rfcomm_monitor (lost :: back)) w) = 0%nat.
Proof.
  intros Hf Hl Hb. unfold events_of. cbn [rfcomm_monitor]. rewrite Hf.
  unfold bind. rewrite (monitor_check_port_lost lost w Hl).
  rewrite monitor_skips_missing_handle by auto.
  cbn [fst snd ser trace]. rewrite skipn_app_exact.
  repeat split. now destruct (ser_is_open w).
Qed.

Lemma monitor_does_not_recover_witness :
  ser (snd (rfcomm_monitor
              [Examples.port_down; Examples.port_up; Examples.port_up;
               Examples.port_up]
              Examples.connected_world)) = None.
Proof.
  apply (monitor_does_not_recover Examples.port_down
           [Examples.port_up; Examples.port_up; Examples.port_up]
           Examples.connected_world); [reflexivity|reflexivity|].
  repeat constructor.
Defined.

End TransportFacts.

(* ================================================================== *)
(** ** Shutdown                                                        *)
(* ================================================================== *)

Module ShutdownFacts.
Import Py Sender Trace PyFacts TransportFacts.

(** The loop over the registry closes every client and swallows what
    [close] raises. *)
Lemma close_clients_spec (e : env) (cs : list socket) (w : world) :
  close_clients e cs w
  = (Ret tt,
     mkWorld (ser w) (clients w) (exit_flag w) (socket_file w)
       (trace w ++ map SockClose cs)).
Proof.
  revert w. induction cs as [|c cs IH]; intros w; cbn [close_clients map].
  - destruct w. unfold_py. now rewrite app_nil_r.
  - unfold bind, try_pass, try_except, sock_close, bind, emit, fault.
    destruct (close_fault e); unfold raise, ret; rewrite IH;
      cbn [ser clients exit_flag socket_file trace];
      now rewrite <- app_assoc.
Qed.

Lemma unlinks_app (l l' : list event) : unlinks (l ++ l') = (unlinks l + unlinks l')%nat.
Proof.
  induction l as [|ev l IH]; cbn [app unlinks]; [reflexivity|].
  destruct ev; cbn; now rewrite ?IH.
Qed.

Lemma unlinks_closes (cs : list socket) : unlinks (map SockClose cs) = 0%nat.
Proof. induction cs; cbn; auto. Qed.

(** [cleanup] in closed form. *)
Lemma cleanup_spec (e : env) (w : world) :
  cleanup e w =
  let tr1 := trace w ++ map SockClose (clients w) in
  let tr2 := if ser_is_open w then tr1 ++ [SerialClose] else tr1 in
  let s2 := if ser_is_open w then None else ser w in
  if socket_file w
  then match unlink_fault e with
       | None => (Ret tt, mkWorld s2 [] true false (tr2 ++ [Unlink]))
       | Some x => (Raise x, mkWorld s2 [] true true (tr2 ++ [Unlink]))
       end
  else (Ret tt, mkWorld s2 [] true false tr2).
Proof.
  unfold cleanup, bind at 1 2 3. unfold set_exit_flag at 1, get at 1.
  cbv beta iota. rewrite close_clients_spec.
  destruct_world w; unfold_py; case_py; reflexivity.
Qed.

(** C7.  After a [cleanup] that completed, a second [cleanup] completes
    too, changes nothing and does nothing to the outside: it closes no
    socket and no port again and unlinks nothing.  The socket file is gone,
    and the first call unlinked it once if it was there. *)
Theorem cleanup_idempotent (e1 e2 : env) (w w1 : world) :
  cleanup e1 w = (Ret tt, w1) ->
  cleanup e2 w1 = (Ret tt, w1) /\
  events_of (cleanup e2) w1 = [] /\
  socket_file w1 = false /\
  unlinks (events_of (cleanup e1) w) = (if socket_file w then 1 else 0)%nat.
Proof.
  intros H.
  assert (E : events_of (cleanup e1) w
              = skipn (List.length (trace w)) (trace w1)).
  { unfold events_of. now rewrite H. }
  rewrite E. clear E. unfold events_of.
  rewrite cleanup_spec in H. rewrite cleanup_spec.
  destruct_world w; cbv beta iota zeta delta [ser_is_open ser is_open
    socket_file trace clients] in H;
    repeat match type of H with
    | (if ?b then _ else _) = _ => destruct b
    | match ?o with _ => _ end = _ => destruct o
    end; try discriminate; injection H as <-;
    cbv beta iota zeta delta [ser_is_open ser is_open socket_file trace
      clients snd map];
    rewrite ?app_nil_r, <- ?app_assoc, ?skipn_app_exact, ?skipn_all,
      ?unlinks_app, ?unlinks_closes;
    repeat split; auto.
Qed.

Lemma cleanup_idempotent_witness :
  cleanup Examples.port_up
    (mkWorld None [] true false
       [SockClose 3%nat; SockClose 4%nat; SerialClose; Unlink])
  = (Ret tt,
     mkWorld None [] true false
       [SockClose 3%nat; SockClose 4%nat; SerialClose; Unlink]).
Proof.
  apply (cleanup_idempotent Examples.port_up Examples.port_up
           (mkWorld (Some (mkSerial true)) [3; 4]%nat false true [])).
  reflexivity.
Defined.

End ShutdownFacts.

(* ================================================================== *)
(** ** A write next to the monitor                                     *)
(* ================================================================== *)

Module ThreadFacts.
Import Py Sender Trace Threads Race PyFacts TransportFacts.

(** Run back to back, the two steps of the writer are [send_data]. *)
Lemma writer_alone (e : env) (data : pyval) (w : world) :
  run [SessionStep e; SessionStep e] (AtCheck data, w)
  = (Returned (fst (send_data e data w)), snd (send_data e data w)).
Proof.
  cbv beta iota zeta delta [run fold_left step writer_step fst snd].
  destruct_world w; unfold_py; case_py; reflexivity.
Qed.




(** *** The [except] block of a write next to the monitor *)

Ltac unfold_race :=
  cbv beta iota zeta delta
    [play fold_left move writer_move reset_after rfcomm_monitor fst snd].

(** Run with no other thread in between, the steps of the writer are
    [send_data]. *)
Lemma play_alone (e : env) (data : pyval) (w : world) :
  play [SessionStep e; SessionStep e; SessionStep e; SessionStep e]
    (Checking data, w)
  = (Over (fst (send_data e data w)), snd (send_data e data w)).
Proof.
  unfold_race. destruct_world w; unfold_py; case_py; reflexivity.
Qed.

Lemma ensure_connection_returns (e : env) (w : world) :
  exists b w', ensure_connection e w = (Ret b, w').
Proof.
  destruct_world w; unfold_py; case_py; eauto.
Qed.

Lemma writer_move_steady (e : env) (cfg : place * world) :
  steady cfg -> steady (writer_move e (fst cfg) (snd cfg)).
Proof.
  destruct cfg as [p w]. unfold steady. cbn [fst snd].
  destruct p as [data|data| |[|]|[b|x]]; cbn [writer_move]; intros H.
  - destruct (ensure_connection_returns e w) as (b & w' & ->).
    now destruct b.
  - now destruct (transmit e data w) as [[b|x] w'].
  - cbn [fst snd]. now destruct (ser_is_open w) eqn:E.
  - destruct_world w; try discriminate. reflexivity.
  - unfold reset_after. now unfold_py.
  - exact I.
  - contradiction.
Qed.

Lemma play_steady (sched : list action) (cfg : place * world) :
  alone sched = true -> steady cfg -> steady (play sched cfg).
Proof.
  revert cfg. induction sched as [|a sched IH]; intros cfg Ha H; [exact H|].
  cbn [alone forallb] in Ha. apply andb_prop in Ha. destruct Ha as [Ha Hs].
  destruct a as [e|e]; [|discriminate].
  change (play (SessionStep e :: sched) cfg)
    with (play sched (writer_move e (fst cfg) (snd cfg))).
  apply IH; [exact Hs|]. now apply writer_move_steady.
Qed.

Lemma steady_contained (cfg : place * world) : steady cfg -> contained (fst cfg).
Proof.
  destruct cfg as [p w]. unfold steady. cbn [fst snd].
  destruct p as [| | | |[|]]; cbn [contained]; auto.
Qed.

Lemma move_only_close (a : action) (cfg : place * world) :
  only_close (fst cfg) -> only_close (fst (move a cfg)).
Proof.
  destruct cfg as [p w]. destruct a as [e|e]; cbn [move fst snd]; [|auto].
  destruct p as [data|data| |t|r]; cbn [writer_move]; intros H.
  - destruct (ensure_connection e w) as [[[|]|x] w']; exact I.
  - destruct (transmit e data w) as [[b|x] w']; exact I.
  - exact I.
  - unfold reset_after. destruct t; destruct_world w; unfold_py;
      cbn [fst only_close]; auto.
  - exact H.
Qed.

Lemma play_only_close (sched : list action) (cfg : place * world) :
  only_close (fst cfg) -> only_close (fst (play sched cfg)).
Proof.
  revert cfg. induction sched as [|a sched IH]; intros cfg H; [exact H|].
  change (play (a :: sched) cfg) with (play sched (move a cfg)).
  apply IH. now apply move_only_close.
Qed.

(** The [except] block torn by a turn of the monitor that finds the port
    unlisted. *)
Lemma handler_torn (e1 em e2 : env) (w : world) :
  ser_is_open w = true -> exit_flag w = false ->
  is_rfcomm_available em = false ->
  play [SessionStep e1; MonitorStep em; SessionStep e2] (Caught, w)
  = (Over (Raise (AttributeError "close")),
     mkWorld None (clients w) false (socket_file w) (trace w ++ [SerialClose])).
Proof.
  intros Hs Hf Ha. unfold_race.
  destruct_world w; try discriminate. cbn [exit_flag] in Hf. subst.
  unfold_py. rewrite Ha. reflexivity.
Qed.



End ThreadFacts.

(* ================================================================== *)
(** ** Sessions: [handle_client]                                       *)
(* ================================================================== *)

Module SessionFacts.
Import Py Sender Trace PyFacts TransportFacts.

Lemma closes_app (c : socket) (l l' : list event) :
  closes c (l ++ l') = (closes c l + closes c l')%nat.
Proof.
  induction l as [|ev l IH]; cbn [app closes]; [reflexivity|].
  destruct ev; try exact IH. destruct (Nat.eqb c c0); cbn; now rewrite IH.
Qed.

Lemma quiet_refl (w : world) : quiet w w.
Proof.
  repeat split. exists []. split; [now rewrite app_nil_r|reflexivity].
Qed.

Lemma quiet_trans (w1 w2 w3 : world) : quiet w1 w2 -> quiet w2 w3 -> quiet w1 w3.
Proof.
  intros (C1 & F1 & l1 & T1 & Q1) (C2 & F2 & l2 & T2 & Q2).
  repeat split; try congruence.
  exists (l1 ++ l2). split.
  - now rewrite T2, T1, app_assoc.
  - intros c. now rewrite closes_app, Q1, Q2.
Qed.

Lemma quiet_log (ev : event) (w : world) :
  (forall c, closes c [ev] = 0%nat) -> quiet w (log ev w).
Proof. intros H. repeat split. exists [ev]. split; [reflexivity|exact H]. Qed.

(** *** Quiet computations *)

Lemma Quiet_ret {A} (a : A) : Quiet (ret a).
Proof. intros w. apply quiet_refl. Qed.

Lemma Quiet_raise {A} (x : exn) : Quiet (@raise A x).
Proof. intros w. apply quiet_refl. Qed.

Lemma Quiet_lift {A} (r : res A) : Quiet (lift r).
Proof. intros w. apply quiet_refl. Qed.

Lemma Quiet_get : Quiet get.
Proof. intros w. apply quiet_refl. Qed.

Lemma Quiet_fault (f : option exn) : Quiet (fault f).
Proof. destruct f; [apply Quiet_raise|apply Quiet_ret]. Qed.

Lemma Quiet_bind {A B} (m : M A) (k : A -> M B) :
  Quiet m -> (forall a, Quiet (k a)) -> Quiet (bind m k).
Proof.
  intros Hm Hk w. unfold bind. specialize (Hm w).
  destruct (m w) as [[a|x] w']; cbn [snd] in *; [|exact Hm].
  eapply quiet_trans; [exact Hm|apply Hk].
Qed.

Lemma Quiet_try_except {A} (m : M A) (h : exn -> M A) :
  Quiet m -> (forall x, Quiet (h x)) -> Quiet (try_except m h).
Proof.
  intros Hm Hh w. unfold try_except. specialize (Hm w).
  destruct (m w) as [[a|x] w']; cbn [snd] in *; [exact Hm|].
  eapply quiet_trans; [exact Hm|apply Hh].
Qed.

Lemma Quiet_emit (ev : event) :
  (forall c, closes c [ev] = 0%nat) -> Quiet (emit ev).
Proof. intros H w. apply (quiet_log ev w H). Qed.

Lemma Quiet_set_ser (s : option Serial) : Quiet (set_ser s).
Proof.
  intros w. repeat split. exists []. cbn. now rewrite app_nil_r.
Qed.

Lemma Quiet_if {A} (b : bool) (m m' : M A) :
  Quiet m -> Quiet m' -> Quiet (if b then m else m').
Proof. now destruct b. Qed.

Create HintDb quiet.
#[local] Hint Resolve Quiet_ret Quiet_raise Quiet_lift Quiet_get Quiet_fault
  Quiet_set_ser Quiet_if : quiet.
#[local] Hint Extern 1 (Quiet (bind _ _)) =>
  apply Quiet_bind; [|intros ?] : quiet.
#[local] Hint Extern 1 (Quiet (try_except _ _)) =>
  apply Quiet_try_except; [|intros ?] : quiet.
#[local] Hint Extern 1 (Quiet (emit _)) =>
  apply Quiet_emit; reflexivity : quiet.
#[local] Hint Extern 2 (Quiet (match ?x with _ => _ end)) =>
  destruct x : quiet.

Lemma Quiet_serial_close : Quiet serial_close.
Proof. unfold serial_close. auto 10 with quiet. Qed.

Lemma Quiet_serial_open (e : env) : Quiet (serial_open e).
Proof. unfold serial_open. auto 10 with quiet. Qed.

Lemma Quiet_serial_write (e : env) (d : bytes) : Quiet (serial_write e d).
Proof. unfold serial_write. auto 10 with quiet. Qed.

Lemma Quiet_sock_send (e : env) (c : socket) (d : bytes) :
  Quiet (sock_send e c d).
Proof. unfold sock_send. auto 10 with quiet. Qed.

Lemma Quiet_sock_recv (c : socket) (r : res bytes) : Quiet (sock_recv c r).
Proof. unfold sock_recv. auto 10 with quiet. Qed.

#[local] Hint Resolve Quiet_serial_close Quiet_serial_open Quiet_serial_write
  Quiet_sock_send Quiet_sock_recv : quiet.

Lemma Quiet_reset_connection : Quiet reset_connection.
Proof. unfold reset_connection. auto 10 with quiet. Qed.

#[local] Hint Resolve Quiet_reset_connection : quiet.

Lemma Quiet_setup_serial_connection (e : env) :
  Quiet (setup_serial_connection e).
Proof. unfold setup_serial_connection. auto 12 with quiet. Qed.

#[local] Hint Resolve Quiet_setup_serial_connection : quiet.

Lemma Quiet_send_data (e : env) (data : pyval) : Quiet (send_data e data).
Proof.
  unfold send_data, ensure_connection, transmit, on_error.
  auto 12 with quiet.
Qed.

#[local] Hint Resolve Quiet_send_data : quiet.

(** What one call of [send_data] on a text does. *)
Lemma send_data_events (e : env) (s : pystr) (body : bytes) (w : world) :
  encode s = Some body ->
  exists b w1 evs,
    send_data e (PStr s) w = (Ret b, w1) /\
    trace w1 = trace w ++ evs /\
    clients w1 = clients w /\ exit_flag w1 = exit_flag w /\
    (forall x ok, In (SerialWrite x ok) evs -> x = ensure_newline body) /\
    (List.length (serial_writes evs) <= 1)%nat /\
    (forall c, replies c evs = []) /\
    (forall c, closes c evs = 0%nat) /\
    (b = true <-> In (SerialWrite (ensure_newline body) true) evs).
Proof.
  intros He. destruct (decode_ensure_newline _ _ He) as (t & Ht).
  destruct_world w; unfold_py; rewrite He, ?Ht; case_py;
    rewrite ?Ht;
    (eexists _, _, _; split; [reflexivity|]; cbn [trace clients exit_flag];
     rewrite <- ?app_assoc; cbn [app];
     split; [first [reflexivity | symmetry; apply app_nil_r]|]);
    repeat split; auto; cbn; intros;
    repeat match goal with
    | H : _ \/ _ |- _ => destruct H
    | H : SerialWrite _ _ = SerialWrite _ _ |- _ => injection H as <- <-
    end; try discriminate; try contradiction; auto; try lia.
Qed.


Lemma replies_app (c : socket) (l l' : list event) :
  replies c (l ++ l') = replies c l ++ replies c l'.
Proof.
  induction l as [|ev l IH]; cbn [app replies]; [reflexivity|].
  destruct ev; try exact IH. destruct (Nat.eqb c c0); cbn; now rewrite IH.
Qed.

Lemma serial_writes_app (l l' : list event) :
  serial_writes (l ++ l') = serial_writes l ++ serial_writes l'.
Proof.
  induction l as [|ev l IH]; cbn [app serial_writes]; [reflexivity|].
  destruct ev; cbn; now rewrite ?IH.
Qed.

Lemma in_clients_last (c : socket) (l : list socket) :
  in_clients c (l ++ [c]) = true.
Proof.
  unfold in_clients. rewrite existsb_app. cbn. rewrite Nat.eqb_refl.
  now rewrite orb_true_r.
Qed.

Lemma remove_first_last (c : socket) (l : list socket) :
  ~ In c l -> remove_first c (l ++ [c]) = l.
Proof.
  induction l as [|x l IH]; cbn [app remove_first In]; intros H.
  - now rewrite Nat.eqb_refl.
  - destruct (Nat.eqb_spec c x) as [->|_]; [tauto|]. f_equal. tauto.
Qed.

Lemma encode_nl : encode [nl] = Some [NL].
Proof. reflexivity. Qed.

Section WithText.

Variable exn_str : exn -> pystr.

(** The reply to a chunk that decodes: [ACK] or [NACK] after [send_data]. *)
Lemma process_decoded (e : env) (c : socket) (data : bytes) (s : pystr)
    (w w1 : world) (b : bool) :
  decode data = Some s ->
  send_data e (PStr (strip s)) w = (Ret b, w1) ->
  send_fault e = None ->
  process exn_str e c data w
  = (Ret tt, log (SockSend c (if b then ACK else NACK) true) w1).
Proof.
  intros Hd Hs Hf.
  unfold process, try_except, bind, lift, bytes_decode. rewrite Hd, Hs.
  destruct b; unfold sock_send, bind, emit, fault, no_fault, log;
    now rewrite Hf.
Qed.

(** The reply to a chunk that does not decode. *)
Lemma process_undecodable (e : env) (c : socket) (data reply : bytes)
    (w : world) :
  decode data = None ->
  encode (s_lit "ERROR: " ++ exn_str (UnicodeDecodeError data) ++ [nl])
  = Some reply ->
  send_fault e = None ->
  process exn_str e c data w = (Ret tt, log (SockSend c reply true) w).
Proof.
  intros Hd Hr Hf.
  unfold process, try_except, bind, lift, bytes_decode, str_encode.
  rewrite Hd, Hr. unfold sock_send, bind, emit, fault, no_fault, log.
  now rewrite Hf.
Qed.

(** One turn of the loop on a chunk that is not empty. *)
Lemma serve_chunk (e : env) (c : socket) (data : bytes)
    (rest : list (env * res bytes)) (w : world) :
  exit_flag w = false -> data <> [] ->
  serve exn_str ((e, Ret data) :: rest) c w
  = bind (process exn_str e c data) (fun _ => serve exn_str rest c)
      (log (SockRecv c (Ret data)) w).
Proof.
  intros Hf Hne. cbn [serve]. rewrite Hf.
  unfold sock_recv. unfold bind at 1 2. unfold emit, ret, log.
  destruct data; [contradiction|reflexivity].
Qed.

(** Processing a chunk closes nothing and leaves the registry alone. *)
Lemma Quiet_process (e : env) (c : socket) (data : bytes) :
  Quiet (process exn_str e c data).
Proof. unfold process. auto 12 with quiet. Qed.

(** Neither does the whole loop. *)
Lemma Quiet_serve (script : list (env * res bytes)) (c : socket) :
  Quiet (serve exn_str script c).
Proof.
  induction script as [|[e r] rest IH]; intros w; cbn [serve];
    destruct (exit_flag w); try apply quiet_refl.
  revert w. apply Quiet_bind; [auto with quiet|].
  intros [|b0 data]; [auto with quiet|].
  apply Quiet_bind; [apply Quiet_process|auto].
Qed.

(** A script that leaves the thread waiting in [recv] can be continued. *)
Lemma serve_app (pre tail : list (env * res bytes)) (c : socket)
    (w w1 : world) :
  serve exn_str pre c w = (Ret false, w1) ->
  exit_flag w1 = false /\
  serve exn_str (pre ++ tail) c w = serve exn_str tail c w1.
Proof.
  revert w. induction pre as [|[e r] pre IH]; intros w; cbn [serve app].
  - destruct (exit_flag w) eqn:Hf; unfold ret; intros H;
      [discriminate|]. injection H as <-. auto.
  - destruct (exit_flag w) eqn:Hf; [discriminate|].
    unfold bind at 1 3. destruct (sock_recv c r w) as [[[|b0 data]|x] w0];
      try discriminate.
    unfold bind at 1 2.
    destruct (process exn_str e c (b0 :: data) w0) as [[[]|x] w2];
      [|discriminate].
    apply IH.
Qed.

(** The events of processing one chunk: those of the one call of
    [send_data], if the chunk decodes, and then replies only. *)
Lemma process_events (e : env) (c : socket) (data : bytes) (w : world) :
  exists sends,
    (forall ev, In ev sends -> exists d ok, ev = SockSend c d ok) /\
    events_of (process exn_str e c data) w
    = match decode data with
      | Some s => events_of (send_data e (PStr (strip s))) w
      | None => []
      end ++ sends.
Proof.
  assert (H : forall ex w0 evs, trace w0 = trace w ++ evs ->
    exists sends,
      (forall ev, In ev sends -> exists d ok, ev = SockSend c d ok) /\
      trace (snd ((reply <- lift (str_encode
                     (s_lit "ERROR: " ++ exn_str ex ++ [nl])) ;;
                   sock_send e c reply) w0)) = trace w ++ evs ++ sends).
  { intros ex w0 evs T. unfold bind, lift, str_encode.
    destruct (encode _) as [reply|].
    - exists [SockSend c reply (no_fault (send_fault e))]. split.
      + intros ev [<-|[]]. eauto.
      + unfold sock_send, bind, emit, fault.
        destruct (send_fault e); cbn [snd trace raise ret];
          now rewrite T, <- app_assoc.
    - exists []. split; [intros ? []|]. cbn [snd]. now rewrite app_nil_r. }
  cut (exists sends,
    (forall ev, In ev sends -> exists d ok, ev = SockSend c d ok) /\
    trace (snd (process exn_str e c data w))
    = trace w ++ match decode data with
                 | Some s => events_of (send_data e (PStr (strip s))) w
                 | None => []
                 end ++ sends).
  { intros (sends & Hs & Ht). exists sends.
    split; [exact Hs|]. now apply events_of_intro. }
  unfold process, try_except. unfold bind at 1. unfold lift at 1, bytes_decode.
  destruct (decode data) as [s|] eqn:Hd.
  2:{ apply (H (UnicodeDecodeError data) w []). now rewrite app_nil_r. }
  destruct (strip_encodes _ _ Hd) as (body & Hb & _).
  destruct (send_data_events e (strip s) body w Hb)
    as (b & w1 & evs & Hs & Ht & _).
  rewrite (events_of_intro (send_data e (PStr (strip s))) w evs)
    by now rewrite Hs.
  cbv beta iota. unfold bind at 1. rewrite Hs.
  assert (K : forall d,
    exists sends,
      (forall ev, In ev sends -> exists d ok, ev = SockSend c d ok) /\
      trace (snd (match sock_send e c d w1 with
                  | (Ret a, w') => (Ret a, w')
                  | (Raise ex, w') =>
                    (reply <- lift (str_encode
                        (s_lit "ERROR: " ++ exn_str ex ++ [nl])) ;;
                     sock_send e c reply) w'
                  end)) = trace w ++ evs ++ sends).
  { intros d. unfold sock_send at 1. unfold bind at 1, emit, fault.
    destruct (send_fault e) as [ex|] eqn:Hf; cbn [raise ret no_fault].
    - destruct (H ex (log (SockSend c d false) w1)
                  (evs ++ [SockSend c d false])) as (sends & Hsd & Htr).
      { cbn [log emit snd trace]. now rewrite Ht, <- app_assoc. }
      exists (SockSend c d false :: sends). split.
      + intros ev [<-|Hin]; eauto.
      + unfold log, emit in Htr. cbn [snd] in Htr. rewrite Htr.
        now rewrite <- app_assoc.
    - exists [SockSend c d true]. split.
      + intros ev [<-|[]]. eauto.
      + cbn [snd trace]. now rewrite Ht, <- app_assoc. }
  destruct b; [apply (K ACK)|apply (K NACK)].
Qed.

(** One turn of the loop on a chunk that decodes, the reply being sent. *)
Lemma serve_decoded (e : env) (c : socket) (data : bytes) (s : pystr)
    (rest : list (env * res bytes)) (w w1 : world) (b : bool) :
  exit_flag w = false -> data <> [] -> decode data = Some s ->
  send_fault e = None ->
  send_data e (PStr (strip s)) (log (SockRecv c (Ret data)) w) = (Ret b, w1) ->
  serve exn_str ((e, Ret data) :: rest) c w
  = serve exn_str rest c (log (SockSend c (if b then ACK else NACK) true) w1).
Proof.
  intros Hf Hne Hd Hsf Hs.
  rewrite (serve_chunk e c data rest w Hf Hne). unfold bind.
  now rewrite (process_decoded e c _ s _ w1 b Hd Hs Hsf).
Qed.


(** C4, as the code has it.  The session is delimited by [recv], not by
    lines: whatever newlines a received chunk holds, the chunk is one
    message.  Its processing ends normally with exactly one reply and at
    most one write; what is written is the whole chunk, stripped, with one
    newline; and the next turn of the loop starts from the next [recv],
    nothing of this chunk being kept. *)
Theorem chunk_is_one_message (e : env) (c : socket) (data : bytes)
    (w : world) :
  send_fault e = None ->
  (forall x, encode (exn_str x) <> None) ->
  fst (process exn_str e c data w) = Ret tt /\
  List.length (replies c (events_of (process exn_str e c data) w)) = 1%nat /\
  (List.length (serial_writes (events_of (process exn_str e c data) w))
   <= 1)%nat /\
  (forall x ok,
     In (SerialWrite x ok) (events_of (process exn_str e c data) w) ->
     exists s body,
       decode data = Some s /\ encode (strip s) = Some body /\
       x = body ++ [NL]) /\
  (forall rest, exit_flag w = false -> data <> [] ->
     serve exn_str ((e, Ret data) :: rest) c w
     = serve exn_str rest c
         (snd (process exn_str e c data (log (SockRecv c (Ret data)) w)))).
Proof.
  intros Hsf Henc.
  assert (G : forall w,
    fst (process exn_str e c data w) = Ret tt /\
    exists evs d,
      events_of (process exn_str e c data) w = evs ++ [SockSend c d true] /\
      (forall c', replies c' evs = []) /\
      (List.length (serial_writes evs) <= 1)%nat /\
      (forall x ok, In (SerialWrite x ok) evs ->
         exists s body,
           decode data = Some s /\ encode (strip s) = Some body /\
           x = body ++ [NL])).
  { clear w. intros w. destruct (decode data) as [s|] eqn:Hd.
    - destruct (strip_encodes _ _ Hd) as (body & Hb & Hn).
      destruct (send_data_events e (strip s) body w Hb)
        as (b & w1 & evs & Hs & Ht & _ & _ & Hw & Hl & Hr & _).
      rewrite (process_decoded e c _ s _ w1 b Hd Hs Hsf).
      split; [reflexivity|].
      exists evs, (if b then ACK else NACK). repeat split; auto.
      + apply events_of_intro.
        rewrite (process_decoded e c _ s _ w1 b Hd Hs Hsf).
        cbn. now rewrite Ht, <- app_assoc.
      + intros x ok Hin. exists s, body. repeat split; auto.
        rewrite (Hw _ _ Hin). unfold ensure_newline. now rewrite Hn.
    - destruct (encode_s_lit "ERROR: ") as (pre & Hpre).
      destruct (encode (exn_str (UnicodeDecodeError data))) as [txt|] eqn:Ht;
        [|now apply Henc in Ht].
      assert (Hr : encode (s_lit "ERROR: "
                           ++ exn_str (UnicodeDecodeError data) ++ [nl])
                   = Some (pre ++ txt ++ [NL])).
      { now rewrite !encode_app, Hpre, Ht, encode_nl. }
      rewrite (process_undecodable e c data _ w Hd Hr Hsf).
      split; [reflexivity|].
      exists [], (pre ++ txt ++ [NL]). repeat split; auto.
      + apply events_of_intro.
        now rewrite (process_undecodable e c data _ w Hd Hr Hsf).
      + intros x ok []. }
  destruct (G w) as (Hret & evs & d & Hev & Hr & Hl & Hw).
  rewrite Hev, replies_app, serial_writes_app, Hr. cbn [replies].
  rewrite Nat.eqb_refl. cbn [serial_writes app List.length].
  rewrite app_nil_r. repeat split; auto.
  - intros x ok Hin. apply in_app_or in Hin. destruct Hin as [Hin|[Hin|[]]].
    + eauto.
    + discriminate.
  - intros rest Hf Hne.
    rewrite (serve_chunk e c data rest w Hf Hne). unfold bind.
    destruct (G (log (SockRecv c (Ret data)) w)) as (Hret' & _).
    destruct (process exn_str e c data (log (SockRecv c (Ret data)) w))
      as [[[]|x] w2]; [reflexivity|discriminate].
Qed.

(** C5, as the code has it.  A chunk that is not UTF-8 is answered
    [ERROR: <str(e)>] and the loop goes on to the next [recv] with the
    stop flag clear and the connection open.  An empty line is not such a
    chunk: it is forwarded as a bare newline and answered [ACK] or [NACK]
    like any other message. *)
Theorem undecodable_chunk_gets_error (e : env) (c : socket)
    (data reply : bytes) (rest : list (env * res bytes)) (w : world) :
  exit_flag w = false -> data <> [] -> decode data = None ->
  send_fault e = None ->
  encode (s_lit "ERROR: " ++ exn_str (UnicodeDecodeError data) ++ [nl])
  = Some reply ->
  (serve exn_str ((e, Ret data) :: rest) c w
   = serve exn_str rest c
       (log (SockSend c reply true) (log (SockRecv c (Ret data)) w)) /\
   firstn 7 reply = b_lit "ERROR: " /\
   exit_flag (log (SockSend c reply true) (log (SockRecv c (Ret data)) w))
   = false) /\
  (exists b w1,
     send_data e (PStr []) (log (SockRecv c (Ret [NL])) w) = (Ret b, w1) /\
     (forall x ok,
        In (SerialWrite x ok)
          (events_of (send_data e (PStr [])) (log (SockRecv c (Ret [NL])) w)) ->
        x = [NL]) /\
     serve exn_str ((e, Ret [NL]) :: rest) c w
     = serve exn_str rest c
         (log (SockSend c (if b then ACK else NACK) true) w1)).
Proof.
  intros Hf Hne Hd Hsf Hr. split; [repeat split|].
  - rewrite (serve_chunk e c data rest w Hf Hne). unfold bind.
    now rewrite (process_undecodable e c _ reply _ Hd Hr Hsf).
  - rewrite encode_app in Hr.
    destruct (encode (s_lit "ERROR: ")) as [pre|] eqn:Hp; [|discriminate].
    destruct (encode (exn_str _ ++ [nl])) as [txt|]; [|discriminate].
    injection Hr as <-. injection Hp as <-. reflexivity.
  - exact Hf.
  - destruct (send_data_events e [] [] (log (SockRecv c (Ret [NL])) w) eq_refl)
      as (b & w1 & evs & Hs & Ht & _ & _ & Hw & _).
    exists b, w1. split; [exact Hs|]. split.
    + rewrite (events_of_intro (send_data e (PStr [])) _ evs)
        by now rewrite Hs.
      exact Hw.
    + apply (serve_decoded e c [NL] [nl] rest w w1 b Hf); auto.
      discriminate.
Qed.


(** C9, as the code has it.  The bytes of a successful write are the
    chunk's text with the whitespace at both ends stripped, UTF-8 encoded,
    followed by one newline.  A chunk with no whitespace at its ends is
    written as it is with a newline appended, a chunk whose only
    whitespace at the ends is one final newline is written unchanged. *)
Theorem forwarded_bytes (e : env) (c : socket) (data x : bytes) (w : world) :
  In (SerialWrite x true) (events_of (process exn_str e c data) w) ->
  exists s body,
    decode data = Some s /\ encode (strip s) = Some body /\
    x = body ++ [NL] /\ ends_with_newline body = false /\
    (strip s = s -> x = data ++ [NL]) /\
    (forall t, s = t ++ [nl] -> strip t = t -> x = data).
Proof.
  intros Hin.
  destruct (process_events e c data w) as (sends & Hsd & Hev).
  rewrite Hev in Hin. apply in_app_or in Hin. destruct Hin as [Hin|Hin].
  2:{ destruct (Hsd _ Hin) as (d & ok & [=]). }
  destruct (decode data) as [s|] eqn:Hd; [|contradiction].
  destruct (strip_encodes _ _ Hd) as (body & Hb & Hn).
  destruct (send_data_events e (strip s) body w Hb)
    as (b & w1 & evs & Hs & Ht & _ & _ & Hw & _).
  rewrite (events_of_intro (send_data e (PStr (strip s))) w evs) in Hin
    by now rewrite Hs.
  apply Hw in Hin. unfold ensure_newline in Hin. rewrite Hn in Hin.
  exists s, body. repeat split; auto.
  - intros Hst. rewrite Hst in Hb. apply decode_encode in Hd. congruence.
  - intros t -> Hst. rewrite (strip_snoc_space t nl isspace_nl), Hst in Hb.
    apply decode_encode in Hd. rewrite encode_app, Hb, encode_nl in Hd.
    congruence.
Qed.

End WithText.


Lemma chunk_is_one_message_witness :
  List.length
    (replies 7%nat
       (events_of
          (process Examples.plain_text Examples.port_up 7%nat
             (b_lit "a" ++ [NL] ++ b_lit "b" ++ [NL]))
          Examples.connected_world)) = 1%nat.
Proof.
  apply (chunk_is_one_message Examples.plain_text Examples.port_up 7%nat
           (b_lit "a" ++ [NL] ++ b_lit "b" ++ [NL]) Examples.connected_world).
  - reflexivity.
  - intros x. vm_compute. discriminate.
Defined.

Lemma undecodable_chunk_gets_error_witness :
  serve Examples.plain_text [(Examples.port_up, Ret [xff])] 7%nat
    Examples.connected_world
  = serve Examples.plain_text [] 7%nat
      (log (SockSend 7%nat (b_lit "ERROR: error" ++ [NL]) true)
         (log (SockRecv 7%nat (Ret [xff])) Examples.connected_world)).
Proof.
  apply (undecodable_chunk_gets_error Examples.plain_text Examples.port_up
           7%nat [xff] (b_lit "ERROR: error" ++ [NL]) []
           Examples.connected_world);
    solve [reflexivity | discriminate].
Defined.


Lemma forwarded_bytes_witness :
  exists s body,
    decode (b_lit "  hi " ++ [NL]) = Some s /\
    encode (strip s) = Some body /\
    b_lit "hi" ++ [NL] = body ++ [NL].
Proof.
  destruct (forwarded_bytes Examples.plain_text Examples.port_up 7%nat
              (b_lit "  hi " ++ [NL]) (b_lit "hi" ++ [NL])
              Examples.connected_world)
    as (s & body & H1 & H2 & H3 & _).
  - vm_compute. now left.
  - exists s, body. repeat split; assumption.
Defined.

(** C4, at a concrete input.  One chunk holding the two lines [a] and [b]
    is neither cut at the first newline nor answered line by line: the
    port receives both lines in one write, and the producer one reply. *)
Lemma two_lines_one_message :
  let chunk := b_lit "a" ++ [NL] ++ b_lit "b" ++ [NL] in
  let evs :=
    events_of (process Examples.plain_text Examples.port_up 7%nat chunk)
      Examples.connected_world in
  count_occ Byte.byte_eq_dec chunk NL = 2%nat /\
  serial_writes evs = [b_lit "a" ++ [NL] ++ b_lit "b" ++ [NL]] /\
  serial_writes evs <> [b_lit "a" ++ [NL]] /\
  replies 7%nat evs = [ACK].
Proof. repeat split. discriminate. Qed.

(** C5, at a concrete input.  An empty line gets no [ERROR] reply: a bare
    newline goes to the port and the producer reads [ACK]. *)
Lemma empty_line_is_acknowledged :
  let evs :=
    events_of (process Examples.plain_text Examples.port_up 7%nat [NL])
      Examples.connected_world in
  serial_writes evs = [[NL]] /\
  replies 7%nat evs = [ACK] /\
  firstn 5 ACK <> b_lit "ERROR".
Proof. repeat split. discriminate. Qed.

(** C9, at a concrete input.  A payload with blanks around its text does
    not reach the port as the producer passed it in: the blanks are
    gone. *)
Lemma surrounding_blanks_are_dropped :
  let payload := b_lit "  hi " ++ [NL] in
  let evs :=
    events_of (process Examples.plain_text Examples.port_up 7%nat payload)
      Examples.connected_world in
  ends_with_newline payload = true /\
  serial_writes evs = [b_lit "hi" ++ [NL]] /\
  serial_writes evs <> [payload] /\
  replies 7%nat evs = [ACK].
Proof. repeat split. discriminate. Qed.

End SessionFacts.


(* ================================================================== *)
(** ** More on the transport                                           *)
(* ================================================================== *)

Module TransportMore.
Import Py Sender Trace Props Granular PyFacts TransportFacts ShutdownFacts.

Lemma opens_app (l l' : list event) : opens (l ++ l') = (opens l + opens l')%nat.
Proof.
  induction l as [|ev l IH]; cbn [app opens]; [reflexivity|].
  destruct ev; cbn; now rewrite ?IH.
Qed.

(** X1.  [setup_serial_connection] never raises.  Its result is truthy exactly
    when this call has opened the port.  On a port that is open already it
    does nothing and returns [None] (port listed) or [False] (port not
    listed); with the port not listed it never touches the state. *)
Theorem setup_serial_connection_result (e : env) (w : world) :
  exists r w',
    setup_serial_connection e w = (Ret r, w') /\
    (truthy r = true <-> ser_is_open w = false /\ ser_is_open w' = true) /\
    (truthy r = true <->
     events_of (setup_serial_connection e) w = [SerialOpen true]) /\
    (ser_is_open w = true ->
     w' = w /\ r = if is_rfcomm_available e then None else Some false) /\
    (is_rfcomm_available e = false -> w' = w /\ r = Some false).
Proof.
  unfold events_of.
  destruct_world w; unfold_py; case_py;
    (eexists _, _; split; [reflexivity|]);
    cbv beta iota zeta delta [snd trace ser is_open truthy];
    rewrite <- ?app_assoc, ?skipn_app_exact, ?skipn_all;
    repeat split; intros; try discriminate; try tauto; try congruence;
    repeat match goal with H : _ /\ _ |- _ => destruct H end;
    try discriminate.
Qed.

Lemma send_data_total (e : env) (data : pyval) (w : world) :
  exists b w', send_data e data w = (Ret b, w').
Proof.
  destruct_world w; unfold_py; case_py; eauto.
Qed.

(** *** No closed handle is kept *)

Lemma live_setup_serial_connection (e : env) (w : world) :
  live w -> live (snd (setup_serial_connection e w)).
Proof.
  unfold live. destruct_world w; unfold_py; case_py; auto.
Qed.

Lemma live_send_data (e : env) (data : pyval) (w : world) :
  live w -> live (snd (send_data e data w)).
Proof.
  unfold live. destruct_world w; unfold_py; case_py; auto.
Qed.

Lemma live_monitor_check (e : env) (w : world) :
  live w -> live (snd (monitor_check e w)).
Proof.
  unfold live. destruct_world w; unfold_py; case_py; auto.
Qed.

Lemma live_rfcomm_monitor (intervals : list env) (w : world) :
  live w -> live (snd (rfcomm_monitor intervals w)).
Proof.
  revert w. induction intervals as [|e rest IH]; intros w H;
    cbn [rfcomm_monitor]; destruct (exit_flag w); auto.
  unfold bind. pose proof (live_monitor_check e w H) as H1.
  destruct (monitor_check e w) as [[[]|x] w1]; cbn [snd] in *; auto.
Qed.

Lemma live_cleanup (e : env) (w : world) :
  live w -> live (snd (cleanup e w)).
Proof.
  rewrite cleanup_spec. unfold live.
  destruct_world w; cbv beta iota zeta delta [ser_is_open ser is_open
    socket_file]; case_py; auto.
Qed.

Lemma Live_bind {A B} (m : M A) (k : A -> M B) :
  Live m -> (forall a, Live (k a)) -> Live (bind m k).
Proof.
  intros Hm Hk w H. unfold bind. specialize (Hm w H).
  destruct (m w) as [[a|x] w']; cbn [snd] in *; [apply Hk|]; exact Hm.
Qed.

Lemma Live_try_except {A} (m : M A) (h : exn -> M A) :
  Live m -> (forall x, Live (h x)) -> Live (try_except m h).
Proof.
  intros Hm Hh w H. unfold try_except. specialize (Hm w H).
  destruct (m w) as [[a|x] w']; cbn [snd] in *; [|apply Hh]; exact Hm.
Qed.

(** A computation that leaves [ser] as it is. *)
Lemma Live_same_ser {A} (m : M A) :
  (forall w, ser (snd (m w)) = ser w) -> Live m.
Proof.
  intros H w. unfold live, ser_is_closed_handle. now rewrite H.
Qed.

Lemma Live_sock_send (e : env) (c : socket) (d : bytes) : Live (sock_send e c d).
Proof.
  apply Live_same_ser. intros w. unfold_py. now destruct (send_fault e).
Qed.

Lemma Live_lift {A} (r : res A) : Live (lift r).
Proof. now apply Live_same_ser. Qed.

Lemma Live_ret {A} (a : A) : Live (ret a).
Proof. now apply Live_same_ser. Qed.

Section WithText.

Variable exn_str : exn -> pystr.

Lemma Live_process (e : env) (c : socket) (data : bytes) :
  Live (process exn_str e c data).
Proof.
  unfold process. apply Live_try_except.
  - apply Live_bind; [apply Live_lift|]. intros s.
    apply Live_bind; [intros w; apply live_send_data|].
    intros []; apply Live_sock_send.
  - intros x. apply Live_bind; [apply Live_lift|]. intros r.
    apply Live_sock_send.
Qed.

Lemma Live_serve (script : list (env * res bytes)) (c : socket) :
  Live (serve exn_str script c).
Proof.
  induction script as [|[e r] rest IH]; intros w H; cbn [serve];
    destruct (exit_flag w); auto.
  revert w H. apply Live_bind.
  - apply Live_same_ser. intros w. unfold_py. now destruct r.
  - intros [|b0 data]; [apply Live_ret|].
    apply Live_bind; [apply Live_process|auto].
Qed.

Lemma Live_handle_client (script : list (env * res bytes)) (fin : env)
    (c : socket) :
  Live (handle_client exn_str script fin c).
Proof.
  unfold handle_client. apply Live_bind.
  { now apply Live_same_ser. }
  intros _. apply Live_bind.
  { apply Live_try_except; [apply Live_serve|intros; apply Live_ret]. }
  intros []; [|apply Live_ret].
  apply Live_same_ser. intros w. unfold finish. unfold_py.
  destruct (close_fault fin); cbv beta iota; now destruct (in_clients _ _).
Qed.

(** X2.  No function of the service keeps a closed handle in [ser]: every
    [ser.close()] is followed by [ser = None].  If [ser] is [None] or an
    open handle before a call of [setup_serial_connection], [send_data],
    [rfcomm_monitor], [cleanup] or [handle_client], it is so after it,
    whatever the outside does. *)
Theorem handle_never_left_closed (w : world) :
  live w ->
  (forall e, live (snd (setup_serial_connection e w))) /\
  (forall e data, live (snd (send_data e data w))) /\
  (forall intervals, live (snd (rfcomm_monitor intervals w))) /\
  (forall e, live (snd (cleanup e w))) /\
  (forall script fin c, live (snd (handle_client exn_str script fin c w))).
Proof.
  intros H. repeat split; intros.
  - now apply live_setup_serial_connection.
  - now apply live_send_data.
  - now apply live_rfcomm_monitor.
  - now apply live_cleanup.
  - now apply Live_handle_client.
Qed.

End WithText.

Lemma handle_never_left_closed_witness :
  live (snd (send_data Examples.port_stuck (PStr (s_lit "hi"))
               Examples.connected_world)).
Proof.
  apply (handle_never_left_closed Examples.plain_text Examples.connected_world).
  reflexivity.
Defined.

(** *** The two listings of a turn of the monitor *)

(** With the same answer to both listings, a turn is [monitor_check]. *)
Lemma monitor_turn_same (e : env) (w : world) :
  monitor_turn e e w = monitor_check e w.
Proof. reflexivity. Qed.

Lemma rfcomm_monitor_turns_same (intervals : list env) (w : world) :
  rfcomm_monitor_turns (map (fun e => (e, e)) intervals) w
  = rfcomm_monitor intervals w.
Proof.
  revert w. induction intervals as [|e rest IH]; intros w;
    cbn [map rfcomm_monitor_turns rfcomm_monitor]; [reflexivity|].
  destruct (exit_flag w); [reflexivity|].
  unfold bind. rewrite monitor_turn_same.
  destruct (monitor_check e w) as [[[]|x] w1]; [apply IH|reflexivity].
Qed.

(** A turn that finds the port listed, with [ser] [None] or open. *)
Lemma monitor_turn_listed (e e' : env) (w : world) :
  live w -> is_rfcomm_available e = true -> monitor_turn e e' w = (Ret tt, w).
Proof.
  unfold live. intros H Ha. unfold monitor_turn.
  destruct_world w; try discriminate; unfold_py; now rewrite Ha.
Qed.

(** A turn that finds the port unlisted, in closed form: it drops the
    handle, and opens the port if the second listing has it. *)
Lemma monitor_turn_lost (e e' : env) (w : world) :
  is_rfcomm_available e = false ->
  monitor_turn e e' w
  = (Ret tt,
     let dropped := trace w ++ if ser_is_open w then [SerialClose] else [] in
     if is_rfcomm_available e'
     then mkWorld (if no_fault (open_fault e')
                   then Some (mkSerial true) else None)
            (clients w) (exit_flag w) (socket_file w)
            (dropped ++ [SerialOpen (no_fault (open_fault e'))])
     else mkWorld None (clients w) (exit_flag w) (socket_file w) dropped).
Proof.
  intros Ha. unfold monitor_turn.
  destruct_world w; unfold_py; rewrite Ha; cbv beta iota zeta;
    destruct (is_rfcomm_available e'); cbv beta iota;
    try destruct (open_fault e'); cbv beta iota;
    rewrite ?app_nil_r; reflexivity.
Qed.

Lemma monitor_turns_spec (intervals : list (env * env)) (w : world) :
  live w ->
  exists evs,
    fst (rfcomm_monitor_turns intervals w) = Ret tt /\
    trace (snd (rfcomm_monitor_turns intervals w)) = trace w ++ evs /\
    (opens evs <= List.length (filter relisted intervals))%nat /\
    (Forall (fun t => relisted t = false) intervals ->
     ser_is_open (snd (rfcomm_monitor_turns intervals w)) = true ->
     snd (rfcomm_monitor_turns intervals w) = w).
Proof.
  revert w. induction intervals as [|[e e'] rest IH]; intros w H;
    cbn [rfcomm_monitor_turns].
  { exists []. destruct (exit_flag w); cbn; rewrite app_nil_r;
      repeat split; auto. }
  destruct (exit_flag w) eqn:Hf.
  { exists []. cbn [ret fst snd opens]. rewrite app_nil_r.
    repeat split; auto. apply Nat.le_0_l. }
  unfold bind. cbn [filter]. unfold relisted at 1. cbn [fst snd].
  destruct (is_rfcomm_available e) eqn:Ha; cbn [negb andb].
  - rewrite (monitor_turn_listed e e' w H Ha).
    destruct (IH w H) as (evs & H1 & H2 & H3 & H4).
    exists evs. repeat split; auto.
    intros F. inversion F; subst. now apply H4.
  - rewrite (monitor_turn_lost e e' w Ha). cbv zeta.
    set (dropped := trace w ++ if ser_is_open w then [SerialClose] else []).
    destruct (is_rfcomm_available e') eqn:Ha'.
    + set (w1 := mkWorld _ _ _ _ _).
      destruct (IH w1) as (evs & H1 & H2 & H3 & H4).
      { subst w1. unfold live. now destruct (open_fault e'). }
      exists ((if ser_is_open w then [SerialClose] else [])
              ++ SerialOpen (no_fault (open_fault e')) :: evs).
      split; [exact H1|]. split.
      { rewrite H2. subst w1 dropped. cbn [trace].
        now rewrite <- !app_assoc. }
      split.
      { rewrite opens_app. cbn [opens List.length].
        destruct (ser_is_open w); cbn [opens Nat.add]; lia. }
      intros F. inversion F as [|t l Ht Hl]; subst.
      unfold relisted in Ht. cbn [fst snd] in Ht.
      rewrite Ha, Ha' in Ht. discriminate.
    + set (w1 := mkWorld _ _ _ _ _).
      destruct (IH w1 eq_refl) as (evs & H1 & H2 & H3 & H4).
      exists ((if ser_is_open w then [SerialClose] else []) ++ evs).
      split; [exact H1|]. split.
      { rewrite H2. subst w1 dropped. cbn [trace].
        now rewrite <- !app_assoc. }
      split.
      { rewrite opens_app. destruct (ser_is_open w); cbn [opens Nat.add];
          exact H3. }
      intros F Ho. inversion F; subst.
      rewrite (H4 ltac:(assumption) Ho) in Ho. discriminate.
Qed.

(** X3.  When the monitor opens the port.  Started with [ser] [None] or open,
    [rfcomm_monitor] calls [serial.Serial] only in a turn that finds the
    port unlisted at line 143 and listed again a moment later, at line 26
    inside [setup_serial_connection]: over any number of turns it opens
    at most once per such turn.  Without such a turn it never opens the
    port, and if the port is open when it stops it has changed nothing at
    all.  In such a turn it does open the port: it drops the handle it
    had, and when [serial.Serial] succeeds [ser] is a new open handle. *)
Theorem monitor_opens_only_on_relisting (intervals : list (env * env))
    (w : world) :
  live w ->
  (opens (events_of (rfcomm_monitor_turns intervals) w)
   <= List.length (filter relisted intervals))%nat /\
  (Forall (fun t => relisted t = false) intervals ->
   opens (events_of (rfcomm_monitor_turns intervals) w) = 0%nat /\
   (ser_is_open (snd (rfcomm_monitor_turns intervals w)) = true ->
    snd (rfcomm_monitor_turns intervals w) = w)) /\
  (forall e e' rest,
     intervals = (e, e') :: rest -> exit_flag w = false ->
     relisted (e, e') = true -> open_fault e' = None ->
     monitor_turn e e' w
     = (Ret tt,
        mkWorld (Some (mkSerial true)) (clients w) (exit_flag w)
          (socket_file w)
          ((trace w ++ if ser_is_open w then [SerialClose] else [])
           ++ [SerialOpen true])) /\
     (1 <= opens (events_of (rfcomm_monitor_turns intervals) w))%nat).
Proof.
  intros H.
  destruct (monitor_turns_spec intervals w H) as (evs & H1 & H2 & H3 & H4).
  rewrite (events_of_intro _ w evs H2).
  split; [exact H3|]. split.
  - intros F. split; [|now apply H4].
    assert (E : filter relisted intervals = []).
    { clear -F. induction F as [|t l Ht _ IH]; cbn [filter];
        [reflexivity|now rewrite Ht]. }
    rewrite E in H3. cbn in H3. lia.
  - intros e e' rest -> Hf Hr Ho.
    unfold relisted in Hr. cbn [fst snd] in Hr.
    apply andb_prop in Hr. destruct Hr as [Ha Ha'].
    apply negb_true_iff in Ha.
    assert (E : monitor_turn e e' w
                = (Ret tt,
                   mkWorld (Some (mkSerial true)) (clients w) (exit_flag w)
                     (socket_file w)
                     ((trace w ++ if ser_is_open w then [SerialClose] else [])
                      ++ [SerialOpen true]))).
    { rewrite (monitor_turn_lost e e' w Ha). cbv zeta. now rewrite Ha', Ho. }
    split; [exact E|].
    cbn [rfcomm_monitor_turns] in H2. rewrite Hf in H2.
    unfold bind in H2. rewrite E in H2.
    set (w1 := mkWorld _ _ _ _ _) in H2.
    destruct (monitor_turns_spec rest w1 eq_refl) as (evs' & _ & K & _).
    rewrite K in H2. subst w1. cbn [trace] in H2.
    rewrite <- !app_assoc in H2. apply app_inv_head in H2. subst evs.
    rewrite opens_app. cbn [app opens].
    destruct (ser_is_open w); cbn [opens]; lia.
Qed.

Lemma monitor_opens_only_on_relisting_witness :
  opens (events_of
           (rfcomm_monitor_turns
              [(Examples.port_up, Examples.port_up);
               (Examples.port_down, Examples.port_down);
               (Examples.port_up, Examples.port_up)])
           Examples.connected_world) = 0%nat.
Proof.
  apply (monitor_opens_only_on_relisting
           [(Examples.port_up, Examples.port_up);
            (Examples.port_down, Examples.port_down);
            (Examples.port_up, Examples.port_up)]
           Examples.connected_world).
  - reflexivity.
  - repeat constructor.
Defined.

(** X4.  A payload that cannot be rendered costs the connection.  On an
    open port, [send_data] on a [bytes] object that is not UTF-8 writes
    it, and then fails on the log line: it returns [False], closes the
    port and resets [ser], although the bytes have gone out.  On a [str]
    that cannot be encoded it writes nothing and does the same. *)
Theorem send_data_payload_costs_connection (e : env) (w : world) :
  ser_is_open w = true ->
  (forall b, write_fault e = None -> decode (ensure_newline b) = None ->
     send_data e (PBytes b) w
     = (Ret false,
        mkWorld None (clients w) (exit_flag w) (socket_file w)
          (trace w ++ [SerialWrite (ensure_newline b) true; SerialClose]))) /\
  (forall s, encode s = None ->
     send_data e (PStr s) w
     = (Ret false,
        mkWorld None (clients w) (exit_flag w) (socket_file w)
          (trace w ++ [SerialClose]))).
Proof.
  intros Ho. split.
  - intros b Hw Hd. destruct_world w; try discriminate.
    unfold_py. rewrite Hw, Hd. cbv beta iota. now rewrite <- app_assoc.
  - intros s He. destruct_world w; try discriminate.
    unfold_py. now rewrite He.
Qed.

Lemma send_data_payload_costs_connection_witness :
  send_data Examples.port_up (PBytes [xff]) Examples.connected_world
  = (Ret false,
     mkWorld None [] false true [SerialWrite [xff; NL] true; SerialClose]).
Proof.
  apply (send_data_payload_costs_connection Examples.port_up
           Examples.connected_world); reflexivity.
Defined.

End TransportMore.


(* ================================================================== *)
(** ** More on shutdown                                                *)
(* ================================================================== *)

Module ShutdownMore.
Import Py Sender Trace Props PyFacts TransportFacts ShutdownFacts SessionFacts.

Lemma closes_map_SockClose (c : socket) (cs : list socket) :
  closes c (map SockClose cs) = count_occ Nat.eq_dec cs c.
Proof.
  induction cs as [|x cs IH]; cbn [map closes count_occ]; [reflexivity|].
  destruct (Nat.eq_dec x c) as [->|Hne].
  - now rewrite Nat.eqb_refl, IH.
  - destruct (Nat.eqb_spec c x); congruence.
Qed.

(** The state [cleanup] leaves, and what it can raise. *)
Lemma cleanup_state (e : env) (w : world) :
  exit_flag (snd (cleanup e w)) = true /\
  clients (snd (cleanup e w)) = [] /\
  ser_is_open (snd (cleanup e w)) = false /\
  (fst (cleanup e w) = Ret tt /\ socket_file (snd (cleanup e w)) = false \/
   exists x, unlink_fault e = Some x /\ socket_file w = true /\
             fst (cleanup e w) = Raise x /\
             socket_file (snd (cleanup e w)) = true).
Proof.
  rewrite cleanup_spec.
  destruct_world w;
    cbv beta iota zeta delta [ser_is_open ser is_open socket_file trace
                              clients];
    (destruct socket_file0; [destruct (unlink_fault e) as [x|] eqn:Hu|]);
    cbv beta iota zeta delta [fst snd ser_is_open ser is_open socket_file
                              trace clients exit_flag];
    (split; [reflexivity|]); (split; [reflexivity|]);
    (split; [reflexivity|]);
    first [ left; split; reflexivity
          | right; exists x; repeat split; reflexivity ].
Qed.


Section WithText.

Variable exn_str : exn -> pystr.

(** X6.  After [cleanup], returned or raised, the loops are over but writing
    is not: [rfcomm_monitor] does nothing; a session started now reads
    nothing, closes its socket at once and leaves the registry empty; yet
    [send_data], which does not look at the stop flag, opens the port
    again when it is listed and writes. *)
Theorem after_cleanup (e : env) (w : world) :
  (forall intervals,
     rfcomm_monitor intervals (snd (cleanup e w))
     = (Ret tt, snd (cleanup e w))) /\
  (forall script fin c,
     handle_client exn_str script fin c (snd (cleanup e w))
     = (Ret tt, log (SockClose c) (snd (cleanup e w)))) /\
  (forall e' s body,
     is_rfcomm_available e' = true -> open_fault e' = None ->
     write_fault e' = None -> encode s = Some body ->
     fst (send_data e' (PStr s) (snd (cleanup e w))) = Ret true /\
     ser_is_open (snd (send_data e' (PStr s) (snd (cleanup e w)))) = true /\
     events_of (send_data e' (PStr s)) (snd (cleanup e w))
     = [SerialOpen true; SerialWrite (ensure_newline body) true]).
Proof.
  destruct (cleanup_state e w) as (Hf & Hc & Ho & _).
  destruct (snd (cleanup e w)) as [s cl ef sf tr].
  cbn [exit_flag clients] in Hf, Hc. subst ef cl.
  repeat split.
  - intros [|i r]; reflexivity.
  - intros script fin c. unfold handle_client, bind at 1.
    cbn [register bind get set_clients clients app ser exit_flag socket_file
         trace].
    unfold bind at 1, try_except at 1.
    assert (E : forall w', exit_flag w' = true ->
                  serve exn_str script c w' = (Ret true, w')).
    { intros w' H. destruct script as [|[? ?] ?]; cbn [serve]; now rewrite H. }
    rewrite E by reflexivity. unfold finish. unfold_py.
    destruct (close_fault fin); cbv beta iota; cbn [in_clients existsb];
      rewrite Nat.eqb_refl; cbn [orb remove_first]; now rewrite Nat.eqb_refl.
  - destruct (decode_ensure_newline _ _ H2) as (t & Ht).
    destruct s as [[[|]]|]; try discriminate; unfold_py;
      now rewrite H, H0, H1, H2, Ht.
  - destruct (decode_ensure_newline _ _ H2) as (t & Ht).
    destruct s as [[[|]]|]; try discriminate; unfold_py;
      now rewrite H, H0, H1, H2, Ht.
  - destruct (decode_ensure_newline _ _ H2) as (t & Ht). unfold events_of.
    destruct s as [[[|]]|]; try discriminate; unfold_py;
      rewrite H, H0, H1, H2, Ht; cbv beta iota zeta delta [snd trace];
      now rewrite <- app_assoc, skipn_app_exact.
Qed.

End WithText.

End ShutdownMore.


(* ================================================================== *)
(** ** More on sessions                                                *)
(* ================================================================== *)

Module SessionMore.
Import Py Sender Trace Props Granular PyFacts TransportFacts SessionFacts.
Import TransportMore.

Lemma subseq_nil_l {A} (l : list A) : subseq [] l.
Proof. induction l; constructor; auto. Qed.

Lemma serial_writes_In (x : bytes) (evs : list event) :
  In x (serial_writes evs) -> exists ok, In (SerialWrite x ok) evs.
Proof.
  induction evs as [|ev evs IH]; [intros []|].
  destruct ev; cbn [serial_writes];
    try (intros H; destruct (IH H) as (ok' & Hin); exists ok'; now right).
  intros [<-|H]; [exists ok; now left|].
  destruct (IH H) as (ok' & Hin). exists ok'. now right.
Qed.

Lemma serial_writes_sends (c : socket) (sends : list event) :
  (forall ev, In ev sends -> exists d ok, ev = SockSend c d ok) ->
  serial_writes sends = [].
Proof.
  induction sends as [|ev sends IH]; intros H; [reflexivity|].
  destruct (H ev (or_introl eq_refl)) as (d & ok & ->). cbn.
  apply IH. intros ev' Hin. apply H. now right.
Qed.

(** A list of at most one element, all of whose elements are [x]. *)
Lemma at_most_one {A} (x : A) (l : list A) :
  (List.length l <= 1)%nat -> (forall y, In y l -> y = x) ->
  l = [] \/ l = [x].
Proof.
  destruct l as [|y [|z l]]; cbn; intros Hl H; auto; [|lia].
  right. f_equal. apply H. now left.
Qed.

Section WithText.

Variable exn_str : exn -> pystr.

(** The writes of one chunk: none, or its forwarded form. *)
Lemma process_writes (e : env) (c : socket) (data : bytes) (w : world) :
  exists evs,
    trace (snd (process exn_str e c data w)) = trace w ++ evs /\
    (serial_writes evs = [] \/
     exists x, forwarded data = Some x /\ serial_writes evs = [x]).
Proof.
  destruct (Quiet_process exn_str e c data w) as (_ & _ & evs & Ht & _).
  exists evs. split; [exact Ht|].
  destruct (process_events exn_str e c data w) as (sends & Hs & Hev).
  rewrite (events_of_intro _ w evs Ht) in Hev. subst evs.
  rewrite serial_writes_app, (serial_writes_sends c sends Hs), app_nil_r.
  unfold forwarded. destruct (decode data) as [s|] eqn:Hd; [|now left].
  destruct (strip_encodes _ _ Hd) as (body & Hb & _). rewrite Hb.
  destruct (send_data_events e (strip s) body w Hb)
    as (b & w1 & evs & Hsd & Htr & _ & _ & Hw & Hl & _).
  rewrite (events_of_intro (send_data e (PStr (strip s))) w evs)
    by now rewrite Hsd.
  destruct (at_most_one (ensure_newline body) (serial_writes evs) Hl)
    as [E|E]; [|now left|right; eauto].
  intros y Hy. destruct (serial_writes_In _ _ Hy) as (ok & Hin). eauto.
Qed.

(** X7.  Within a session the order of the messages is kept: what the session
    hands to [ser.write], in order, is the forwarded form of chunks of its
    script, in the order of the script, each at most once; a chunk is left
    out when it does not decode or when no connection could be made for
    it.  This holds whatever fails on the way. *)
Theorem session_writes_in_order (script : list (env * res bytes))
    (c : socket) (w : world) :
  subseq (serial_writes (events_of (serve exn_str script c) w))
         (forwards script).
Proof.
  cut (exists evs,
         trace (snd (serve exn_str script c w)) = trace w ++ evs /\
         subseq (serial_writes evs) (forwards script)).
  { intros (evs & Ht & Hs). now rewrite (events_of_intro _ w evs Ht). }
  revert w. induction script as [|[e r] rest IH]; intros w; cbn [serve].
  { exists []. destruct (exit_flag w); cbn; rewrite app_nil_r;
      split; auto; constructor. }
  destruct (exit_flag w).
  { exists []. cbn. rewrite app_nil_r. split; auto. apply subseq_nil_l. }
  unfold bind at 1. unfold sock_recv, bind at 1, emit. cbv beta iota.
  destruct r as [[|b0 data]|x]; cbn [ret raise forwards].
  - exists [SockRecv c (Ret [])]. split; [reflexivity|]. apply subseq_nil_l.
  - set (w0 := mkWorld _ _ _ _ _).
    destruct (process_writes e c (b0 :: data) w0) as (evp & Hp & Hw).
    unfold bind.
    destruct (process exn_str e c (b0 :: data) w0) as [[[]|x] w1];
      cbn [snd] in Hp.
    + destruct (IH w1) as (evs & Ht & Hs).
      exists (SockRecv c (Ret (b0 :: data)) :: evp ++ evs). split.
      * rewrite Ht, Hp. cbn [w0 trace]. now rewrite <- !app_assoc.
      * cbn [serial_writes]. rewrite serial_writes_app.
        destruct Hw as [->|(y & -> & ->)]; cbn [app].
        -- destruct (forwarded (b0 :: data)); [apply subseq_skip|]; exact Hs.
        -- now apply subseq_take.
    + exists (SockRecv c (Ret (b0 :: data)) :: evp). split.
      * cbn [snd]. rewrite Hp. cbn [w0 trace]. now rewrite <- !app_assoc.
      * cbn [serial_writes].
        destruct Hw as [->|(y & -> & ->)]; [apply subseq_nil_l|].
        apply subseq_take, subseq_nil_l.
  - exists [SockRecv c (Raise x)]. split; [reflexivity|]. apply subseq_nil_l.
Qed.


(** *** The two sends of a turn *)

(** With the same answer to both sends, a turn is [process]. *)
Lemma process_turn_same (e : env) (c : socket) (data : bytes) (w : world) :
  process_turn exn_str e e c data w = process exn_str e c data w.
Proof. reflexivity. Qed.

Lemma serve_turns_same (script : list (env * res bytes)) (c : socket)
    (w : world) :
  serve_turns exn_str (map (fun t => (fst t, fst t, snd t)) script) c w
  = serve exn_str script c w.
Proof.
  revert w. induction script as [|[e r] rest IH]; intros w;
    cbn [map serve_turns serve fst snd]; [reflexivity|].
  destruct (exit_flag w); [reflexivity|].
  unfold sock_recv, bind, emit.
  destruct r as [[|b0 data]|x]; cbv beta iota; unfold ret, raise;
    try reflexivity.
  rewrite process_turn_same.
  destruct (process exn_str e c (b0 :: data) _) as [[[]|x] w1];
    [apply IH|reflexivity].
Qed.

(** One turn of the loop on a chunk that is not empty. *)
Lemma serve_turns_chunk (e e' : env) (c : socket) (data : bytes)
    (rest : list (env * env * res bytes)) (w : world) :
  exit_flag w = false -> data <> [] ->
  serve_turns exn_str ((e, e', Ret data) :: rest) c w
  = bind (process_turn exn_str e e' c data)
      (fun _ => serve_turns exn_str rest c)
      (log (SockRecv c (Ret data)) w).
Proof.
  intros Hf Hne. cbn [serve_turns]. rewrite Hf.
  unfold sock_recv. unfold bind at 1 2. unfold emit, ret, log.
  destruct data; [contradiction|reflexivity].
Qed.

(** A chunk that decodes and whose acknowledgement cannot be sent: the
    [except] block sends the [ERROR] line, with an outcome of its own. *)
Lemma process_turn_failed_ack (e e' : env) (c : socket) (data : bytes)
    (s : pystr) (x : exn) (err : bytes) (b : bool) (w0 w1 : world) :
  decode data = Some s -> send_fault e = Some x ->
  encode (s_lit "ERROR: " ++ exn_str x ++ [nl]) = Some err ->
  send_data e (PStr (strip s)) w0 = (Ret b, w1) ->
  process_turn exn_str e e' c data w0
  = (match send_fault e' with
     | None => Ret tt
     | Some y => Raise y
     end,
     log (SockSend c err (no_fault (send_fault e')))
       (log (SockSend c (if b then ACK else NACK) false) w1)).
Proof.
  intros Hd Hx He Hs.
  unfold process_turn, try_except. unfold bind at 1.
  unfold lift at 1, bytes_decode. rewrite Hd. unfold bind at 1. rewrite Hs.
  assert (K : forall reply w',
            sock_send e c reply w'
            = (Raise x, log (SockSend c reply false) w')).
  { intros reply w'. unfold sock_send, bind, emit, fault, log, emit.
    rewrite Hx. reflexivity. }
  assert (R : forall w',
            (reply <- lift (str_encode
                              (s_lit "ERROR: " ++ exn_str x ++ [nl])) ;;
             sock_send e' c reply) w'
            = (match send_fault e' with
               | None => Ret tt
               | Some y => Raise y
               end,
               log (SockSend c err (no_fault (send_fault e'))) w')).
  { intros w'. unfold bind at 1. unfold lift, str_encode. rewrite He.
    unfold sock_send, bind, emit, fault, log, emit.
    destruct (send_fault e'); reflexivity. }
  destruct b; rewrite K; apply R.
Qed.

(** X9.  When the acknowledgement cannot be sent.  A chunk has been decoded
    and handed to [send_data], and the [send] of [ACK] or [NACK] raises.
    The [except] block of line 125 then sends [ERROR: <str(e)>] for that
    exception.  If this second [send] succeeds, the turn is over and the
    loop goes on with the next [recv]: the session survives.  If it
    raises too, the exception leaves the loop, and nothing of the rest of
    the script is read, whatever it holds. *)
Theorem failed_ack_then_error_reply (e e' : env) (c : socket) (data : bytes)
    (rest : list (env * env * res bytes)) (fin : env) (w : world)
    (s : pystr) (x : exn) (err : bytes) :
  exit_flag w = false -> data <> [] -> decode data = Some s ->
  send_fault e = Some x ->
  encode (s_lit "ERROR: " ++ exn_str x ++ [nl]) = Some err ->
  exists b w1,
    send_data e (PStr (strip s)) (log (SockRecv c (Ret data)) w)
    = (Ret b, w1) /\
    (send_fault e' = None ->
     exit_flag w1 = false /\
     serve_turns exn_str ((e, e', Ret data) :: rest) c w
     = serve_turns exn_str rest c
         (log (SockSend c err true)
            (log (SockSend c (if b then ACK else NACK) false) w1))) /\
    (forall y, send_fault e' = Some y ->
     serve_turns exn_str ((e, e', Ret data) :: rest) c w
     = (Raise y,
        log (SockSend c err false)
          (log (SockSend c (if b then ACK else NACK) false) w1)) /\
     handle_client_turns exn_str ((e, e', Ret data) :: rest) fin c w
     = handle_client_turns exn_str [(e, e', Ret data)] fin c w).
Proof.
  intros Hf Hne Hd Hx He.
  assert (S : forall w0 tail, exit_flag w0 = false ->
            exists b w1,
              send_data e (PStr (strip s)) (log (SockRecv c (Ret data)) w0)
              = (Ret b, w1) /\
              exit_flag w1 = false /\
              serve_turns exn_str ((e, e', Ret data) :: tail) c w0
              = bind (fun w' =>
                        (match send_fault e' with
                         | None => Ret tt
                         | Some y => Raise y
                         end, w'))
                  (fun _ => serve_turns exn_str tail c)
                  (log (SockSend c err (no_fault (send_fault e')))
                     (log (SockSend c (if b then ACK else NACK) false) w1))).
  { intros w0 tail Hf0.
    destruct (send_data_total e (PStr (strip s))
                (log (SockRecv c (Ret data)) w0)) as (b & w1 & Hs).
    exists b, w1. split; [exact Hs|]. split.
    { destruct (send_data_frame e (PStr (strip s))
                  (log (SockRecv c (Ret data)) w0)) as (_ & F & _).
      rewrite Hs in F. cbn [snd] in F. rewrite F. exact Hf0. }
    rewrite (serve_turns_chunk e e' c data tail w0 Hf0 Hne).
    unfold bind.
    now rewrite (process_turn_failed_ack e e' c data s x err b _ w1
                   Hd Hx He Hs). }
  destruct (S w rest Hf) as (b & w1 & Hs & Hf1 & E).
  exists b, w1. split; [exact Hs|]. split.
  - intros H'. split; [exact Hf1|]. rewrite E, H'. reflexivity.
  - intros y H'. split.
    + rewrite E, H'. reflexivity.
    + unfold handle_client_turns. unfold bind at 1 3.
      destruct (register c w) as [[[]|z] w0] eqn:Hreg; [|reflexivity].
      assert (Hf0 : exit_flag w0 = false).
      { unfold register, bind, get, set_clients in Hreg.
        injection Hreg as <-. exact Hf. }
      destruct (S w0 rest Hf0) as (b1 & w2 & Hs1 & _ & E1).
      destruct (S w0 [] Hf0) as (b2 & w3 & Hs2 & _ & E2).
      rewrite Hs1 in Hs2. injection Hs2 as <- <-.
      unfold bind, try_except. rewrite E1, E2, H'. reflexivity.
Qed.

(** X10.  On a healthy run every chunk is forwarded and acknowledged.  With the
    port open, and every turn delivering a chunk that is not empty and is
    UTF-8 while the port takes the write and the client the reply, the
    session writes the forwarded form of every chunk, in order, answers
    each with [ACK], and is then waiting for the next chunk with the port
    still open. *)
Theorem healthy_session (script : list (env * res bytes)) (c : socket)
    (w : world) :
  exit_flag w = false -> ser_is_open w = true ->
  Forall healthy_turn script ->
  fst (serve exn_str script c w) = Ret false /\
  ser_is_open (snd (serve exn_str script c w)) = true /\
  serial_writes (events_of (serve exn_str script c) w) = forwards script /\
  List.length (forwards script) = List.length script /\
  replies c (events_of (serve exn_str script c) w)
  = repeat ACK (List.length script).
Proof.
  intros Hf Ho H.
  cut (exists evs,
         fst (serve exn_str script c w) = Ret false /\
         ser_is_open (snd (serve exn_str script c w)) = true /\
         trace (snd (serve exn_str script c w)) = trace w ++ evs /\
         serial_writes evs = forwards script /\
         List.length (forwards script) = List.length script /\
         replies c evs = repeat ACK (List.length script)).
  { intros (evs & H1 & H2 & H3 & H4 & H5 & H6).
    rewrite (events_of_intro _ w evs H3). auto. }
  revert w Hf Ho. induction H as [|[e r] rest Ht _ IH]; intros w Hf Ho.
  { exists []. cbn [serve]. rewrite Hf. cbn. rewrite app_nil_r.
    repeat split; auto. }
  destruct Ht as (Hwf & Hsf & data & Hr & Hne & Hd).
  cbn [fst snd] in Hwf, Hsf, Hr. subst r.
  destruct (decode data) as [s|] eqn:Hds; [clear Hd|contradiction].
  destruct (strip_encodes _ _ Hds) as (body & Hb & _).
  destruct (decode_ensure_newline _ _ Hb) as (t & Hdt).
  set (w0 := log (SockRecv c (Ret data)) w).
  set (w1 := log (SerialWrite (ensure_newline body) true) w0).
  assert (Hs : send_data e (PStr (strip s)) w0 = (Ret true, w1)).
  { subst w1 w0. destruct_world w; try discriminate; unfold_py;
      now rewrite Hb, Hwf, Hdt. }
  rewrite (serve_decoded exn_str e c data s rest w w1 true Hf Hne Hds Hsf Hs).
  destruct (IH (log (SockSend c ACK true) w1)) as
    (evs & H1 & H2 & H3 & H4 & H5 & H6).
  { exact Hf. }
  { subst w1 w0. now destruct_world w. }
  exists (SockRecv c (Ret data) :: SerialWrite (ensure_newline body) true
          :: SockSend c ACK true :: evs).
  split; [exact H1|]. split; [exact H2|]. split.
  { rewrite H3. subst w1 w0. cbn [log emit snd trace].
    now rewrite <- !app_assoc. }
  cbn [forwards serial_writes replies]. unfold forwarded.
  rewrite Hds, Hb, Nat.eqb_refl, H4, H6. cbn [List.length repeat].
  rewrite H5. auto.
Qed.

End WithText.


Lemma failed_ack_then_error_reply_witness :
  exists b w1,
    send_data (mkEnv [RFCOMM_PORT] None None (Some (OSError 32)) None None)
      (PStr (strip (s_lit "hi")))
      (log (SockRecv 7%nat (Ret (b_lit "hi"))) Examples.connected_world)
    = (Ret b, w1) /\
    serve_turns Examples.plain_text
      [(mkEnv [RFCOMM_PORT] None None (Some (OSError 32)) None None,
        Examples.port_up, Ret (b_lit "hi"));
       (Examples.port_up, Examples.port_up, Ret (b_lit "more"))]
      7%nat Examples.connected_world
    = serve_turns Examples.plain_text
        [(Examples.port_up, Examples.port_up, Ret (b_lit "more"))] 7%nat
        (log (SockSend 7%nat (b_lit "ERROR: error" ++ [NL]) true)
           (log (SockSend 7%nat (if b then ACK else NACK) false) w1)).
Proof.
  destruct (failed_ack_then_error_reply Examples.plain_text
              (mkEnv [RFCOMM_PORT] None None (Some (OSError 32)) None None)
              Examples.port_up 7%nat (b_lit "hi")
              [(Examples.port_up, Examples.port_up, Ret (b_lit "more"))]
              Examples.port_up Examples.connected_world
              (s_lit "hi") (OSError 32) (b_lit "ERROR: error" ++ [NL]))
    as (b & w1 & H1 & H2 & _);
    [reflexivity|discriminate|reflexivity|reflexivity|reflexivity|].
  exists b, w1. split; [exact H1|]. now apply H2.
Defined.

Lemma healthy_session_witness :
  serial_writes
    (events_of
       (serve Examples.plain_text
          [(Examples.port_up, Ret (b_lit "one" ++ [NL]));
           (Examples.port_up, Ret (b_lit "two" ++ [NL]))] 7%nat)
       Examples.connected_world)
  = forwards [(Examples.port_up, Ret (b_lit "one" ++ [NL]));
              (Examples.port_up, Ret (b_lit "two" ++ [NL]))].
Proof.
  apply (healthy_session Examples.plain_text
           [(Examples.port_up, Ret (b_lit "one" ++ [NL]));
            (Examples.port_up, Ret (b_lit "two" ++ [NL]))] 7%nat
           Examples.connected_world); [reflexivity|reflexivity|].
  repeat constructor;
    solve [ discriminate
          | eexists; repeat split; [discriminate|discriminate] ].
Defined.

End SessionMore.


(* ================================================================== *)
(** ** The producers                                                   *)
(* ================================================================== *)

Module ProducerFacts.
Import Py Sender Trace Props PyFacts TransportFacts SessionFacts Producer.

Ltac unfold_producer :=
  cbv beta iota zeta delta
    [send_to_bluetooth connect_to_sender on_socket pemit set_sender_socket
     St.and_then St.pure St.throw St.of_res St.state St.catch St.ignore_errors
     St.throw_if no_fault sender_socket ptrace fst snd].

(** X11.  [connect_to_sender] never raises.  It closes the socket it had, if
    any, before anything else; it returns [True] exactly when the new
    socket could be made and connected, and then [sender_socket] is that
    socket.  On failure [sender_socket] is [None], and the new socket, if
    one was made, is dropped without being closed. *)
Theorem connect_to_sender_result (e : penv) (w : pworld) :
  exists b w' evs,
    connect_to_sender e w = (Ret b, w') /\
    (b = true <-> socket_fault e = None /\ connect_fault e = None) /\
    sender_socket w' = (if b then Some (new_socket e) else None) /\
    ptrace w' = ptrace w
                ++ match sender_socket w with
                   | Some c => [CloseSocket c]
                   | None => []
                   end ++ evs /\
    ~ In (CloseSocket (new_socket e)) evs.
Proof.
  destruct w as [[c|] tr]; unfold_producer; case_py;
    (eexists _, _, _; split; [reflexivity|]);
    cbv beta iota zeta delta [sender_socket ptrace];
    rewrite <- ?app_assoc; cbn [app];
    (split; [split; [auto; discriminate|intros [? ?]; congruence]|]);
    (split; [reflexivity|]);
    (split; [first [reflexivity | symmetry; apply app_nil_r]|]);
    cbn; intuition discriminate.
Qed.

Lemma is_ack_true (s : pystr) : is_ack s = true <-> s = s_lit "ACK".
Proof.
  unfold is_ack. destruct (list_eq_dec N.eq_dec s (s_lit "ACK"));
    split; auto; discriminate.
Qed.

(** X12.  [send_to_bluetooth] never raises, and answers [True] only to a reply
    that reads [ACK] once stripped.  A socket it holds on entry is never
    closed by it: it is kept, or dropped by [sender_socket = None] when
    something has raised. *)
Theorem send_to_bluetooth_result (e : penv) (data : pdata) (w : pworld) :
  exists b w' evs,
    send_to_bluetooth e data w = (Ret b, w') /\
    ptrace w' = ptrace w ++ evs /\
    (b = true ->
     exists reply s,
       response e = Ret reply /\ decode reply = Some s /\
       strip s = s_lit "ACK" /\ sender_socket w' <> None) /\
    (forall c, sender_socket w = Some c ->
       ~ In (CloseSocket c) evs /\
       (sender_socket w' = Some c \/ sender_socket w' = None)).
Proof.
  destruct w as [[c|] tr]; destruct data as [[j|x]|s];
    unfold_producer; cbv beta iota zeta delta [data_str str_encode
      bytes_decode]; case_py;
    (eexists _, _, _; split; [reflexivity|]);
    cbv beta iota zeta delta [sender_socket ptrace];
    rewrite <- ?app_assoc; cbn [app];
    (split; [first [reflexivity | symmetry; apply app_nil_r]|]);
    (split;
     [ first [ discriminate
             | intros Hb; apply is_ack_true in Hb;
               eexists _, _; repeat split; eauto; discriminate ]
     | intros c' Hc; try discriminate; injection Hc as <-;
       cbn [In]; intuition discriminate ]).
Qed.

(** A producer that holds a socket, sends and gets a reply it can decode
    answers [True] or [False] by that reply alone, and keeps the socket
    either way. *)
Lemma send_to_bluetooth_reply (e : penv) (data : pdata) (w : pworld)
    (c : socket) (text : pystr) (msg reply : bytes) (s : pystr) :
  sender_socket w = Some c -> data_str data = Ret text ->
  encode text = Some msg -> psend_fault e = None ->
  response e = Ret reply -> decode reply = Some s ->
  send_to_bluetooth e data w
  = (Ret (is_ack (strip s)),
     mkPworld (Some c) (ptrace w ++ [Send c msg true; Recv c (Ret reply)])).
Proof.
  destruct w as [sk tr]. cbn [sender_socket ptrace].
  intros -> Ht Hm Hs Hr Hd. unfold_producer. rewrite Ht.
  cbv beta iota zeta delta [str_encode bytes_decode].
  rewrite Hm, Hs, Hr, Hd. cbv beta iota. now rewrite <- app_assoc.
Qed.

Lemma lstrip_snoc_nonspace (l : pystr) (c : N) :
  isspace c = false -> lstrip (l ++ [c]) = lstrip l ++ [c].
Proof.
  intros Hc. induction l as [|a l IH]; cbn [app lstrip].
  - now rewrite Hc.
  - now destruct (isspace a).
Qed.

Lemma strip_cons_nonspace (c : N) (r : pystr) :
  isspace c = false -> exists r', strip (c :: r) = c :: r'.
Proof.
  intros Hc. unfold strip. cbn [lstrip]. rewrite Hc. unfold rstrip.
  cbn [rev]. rewrite (lstrip_snoc_nonspace _ _ Hc), rev_unit. eauto.
Qed.

(** X13.  Only [ACK] is success.  A producer that holds a socket and has sent
    its message answers [False], and keeps the socket, when the reply is
    [NACK], when it is any [ERROR: ...] line, and when it is empty, which
    is what [recv] returns once the service has closed the connection. *)
Theorem only_ack_is_success (e : penv) (data : pdata) (w : pworld)
    (c : socket) (text : pystr) (msg reply : bytes) :
  sender_socket w = Some c -> data_str data = Ret text ->
  encode text = Some msg -> psend_fault e = None ->
  response e = Ret reply ->
  (reply = ACK ->
   fst (send_to_bluetooth e data w) = Ret true) /\
  (reply = NACK \/ reply = [] \/
   (exists txt, encode (s_lit "ERROR: " ++ txt ++ [nl]) = Some reply) ->
   fst (send_to_bluetooth e data w) = Ret false /\
   sender_socket (snd (send_to_bluetooth e data w)) = Some c).
Proof.
  intros Hc Ht Hm Hs Hr. split.
  - intros ->.
    now rewrite (send_to_bluetooth_reply e data w c text msg ACK
                   (s_lit "ACK" ++ [nl]) Hc Ht Hm Hs Hr eq_refl).
  - intros [->|[->|(txt & He)]].
    + now rewrite (send_to_bluetooth_reply e data w c text msg NACK
                     (s_lit "NACK" ++ [nl]) Hc Ht Hm Hs Hr eq_refl).
    + now rewrite (send_to_bluetooth_reply e data w c text msg []
                     [] Hc Ht Hm Hs Hr eq_refl).
    + rewrite (send_to_bluetooth_reply e data w c text msg reply _
                 Hc Ht Hm Hs Hr (encode_decode _ _ He)).
      cbn [fst snd sender_socket]. split; [|reflexivity]. f_equal.
      destruct (strip_cons_nonspace 69 (s_lit "RROR: " ++ txt ++ [nl])
                  eq_refl) as (r' & Hst).
      change (s_lit "ERROR: " ++ txt ++ [nl])
        with (69 :: s_lit "RROR: " ++ txt ++ [nl]).
      rewrite Hst. unfold is_ack.
      destruct (list_eq_dec N.eq_dec (69 :: r') (s_lit "ACK")) as [E|];
        [discriminate E|reflexivity].
Qed.

Lemma only_ack_is_success_witness :
  fst (send_to_bluetooth
         (mkPenv 9%nat None None None None (Ret NACK))
         (Dict (Ret (s_lit "{}")))
         (mkPworld (Some 4%nat) [])) = Ret false /\
  sender_socket
    (snd (send_to_bluetooth
            (mkPenv 9%nat None None None None (Ret NACK))
            (Dict (Ret (s_lit "{}")))
            (mkPworld (Some 4%nat) []))) = Some 4%nat.
Proof.
  apply (only_ack_is_success
           (mkPenv 9%nat None None None None (Ret NACK))
           (Dict (Ret (s_lit "{}"))) (mkPworld (Some 4%nat) []) 4%nat
           (s_lit "{}" ++ [nl]) (b_lit "{}" ++ [NL]) NACK);
    try reflexivity.
  now left.
Defined.

Section WithText.

Variable exn_str : exn -> pystr.

(** X14.  A producer and the service agree.  The producer holds a socket and
    its message is one chunk for the service, whose reply it gets: then
    [send_to_bluetooth] returns [True] exactly when [send_data] returned
    [True] in the service.  The service sends one reply, [ACK] or [NACK];
    and for a [dict], whose JSON text has no blanks at its ends, the bytes
    the service writes to the port are the bytes the producer sent. *)
Theorem producer_and_service_agree (e : env) (c : socket) (w : world)
    (pe : penv) (data : pdata) (pw : pworld) (sc : socket) (text : pystr)
    (msg : bytes) :
  sender_socket pw = Some sc -> data_str data = Ret text ->
  encode text = Some msg -> psend_fault pe = None ->
  send_fault e = None ->
  exists b w1,
    send_data e (PStr (strip text)) w = (Ret b, w1) /\
    replies c (events_of (process exn_str e c msg) w)
    = [if b then ACK else NACK] /\
    (response pe = Ret (if b then ACK else NACK) ->
     fst (send_to_bluetooth pe data pw) = Ret b) /\
    (forall j, data = Dict (Ret j) -> strip j = j ->
     forall x ok,
       In (SerialWrite x ok) (events_of (process exn_str e c msg) w) ->
       x = msg).
Proof.
  intros Hc Ht Hm Hps Hsf.
  pose proof (encode_decode _ _ Hm) as Hd.
  destruct (strip_encodes _ _ Hd) as (body & Hb & Hn).
  destruct (send_data_events e (strip text) body w Hb)
    as (b & w1 & evs & Hs & Htr & _ & _ & Hw & _ & Hr & _).
  exists b, w1. split; [exact Hs|].
  assert (Hev : events_of (process exn_str e c msg) w
                = evs ++ [SockSend c (if b then ACK else NACK) true]).
  { apply events_of_intro.
    rewrite (process_decoded exn_str e c msg text w w1 b Hd Hs Hsf).
    cbn. now rewrite Htr, <- app_assoc. }
  rewrite Hev. split; [|split].
  - rewrite replies_app, Hr. cbn. now rewrite Nat.eqb_refl.
  - intros Hresp.
    destruct b;
      [ rewrite (send_to_bluetooth_reply pe data pw sc text msg ACK
                   (s_lit "ACK" ++ [nl]) Hc Ht Hm Hps Hresp eq_refl)
      | rewrite (send_to_bluetooth_reply pe data pw sc text msg NACK
                   (s_lit "NACK" ++ [nl]) Hc Ht Hm Hps Hresp eq_refl) ];
      reflexivity.
  - intros j -> Hj x ok Hin. apply in_app_or in Hin.
    destruct Hin as [Hin|[Hin|[]]]; [|discriminate].
    rewrite (Hw _ _ Hin). unfold ensure_newline. rewrite Hn.
    cbn [data_str] in Ht. injection Ht as <-.
    rewrite (strip_snoc_space j nl isspace_nl), Hj in Hb.
    rewrite encode_app, Hb, encode_nl in Hm. congruence.
Qed.

End WithText.

Lemma producer_and_service_agree_witness :
  exists b w1,
    send_data Examples.port_up (PStr (strip (s_lit "{}" ++ [nl])))
      Examples.connected_world = (Ret b, w1) /\
    replies 7%nat
      (events_of (process Examples.plain_text Examples.port_up 7%nat
                    (b_lit "{}" ++ [NL])) Examples.connected_world)
    = [if b then ACK else NACK].
Proof.
  destruct (producer_and_service_agree Examples.plain_text Examples.port_up
              7%nat Examples.connected_world
              (mkPenv 9%nat None None None None (Ret ACK))
              (Dict (Ret (s_lit "{}"))) (mkPworld (Some 4%nat) []) 4%nat
              (s_lit "{}" ++ [nl]) (b_lit "{}" ++ [NL]))
    as (b & w1 & H1 & H2 & _); try reflexivity.
  exists b, w1. split; assumption.
Defined.

End ProducerFacts.


(* ================================================================== *)
(** ** The scanner's RSSI                                              *)
(* ================================================================== *)

Module ScannerFacts.
Import Py PyFacts Scanner.

Local Open Scope Z_scope.

Lemma hex_digit_captured (c : N) :
  (in_range 48 57 c || in_range 65 70 c = true)%bool ->
  exists d, hex_digit c = Some d /\ 0 <= d < 16.
Proof.
  unfold hex_digit, in_range. intros H.
  destruct ((48 <=? c)%N && (c <=? 57)%N)%bool eqn:E1.
  - apply andb_prop in E1. destruct E1 as [A B].
    apply N.leb_le in A, B. eexists. split; [reflexivity|lia].
  - cbn [orb] in H. rewrite H. apply andb_prop in H. destruct H as [A B].
    apply N.leb_le in A, B. eexists. split; [reflexivity|lia].
Qed.

Lemma hex_digits_value (s : pystr) (acc : Z) :
  Forall (fun c => (in_range 48 57 c || in_range 65 70 c = true)%bool) s ->
  exists y, hex_digits acc s = Some (acc * 16 ^ Z.of_nat (List.length s) + y)
            /\ 0 <= y < 16 ^ Z.of_nat (List.length s).
Proof.
  intros H. revert acc. induction H as [|c s Hc _ IH]; intros acc.
  - exists 0. cbn. split; [f_equal|]; lia.
  - destruct (hex_digit_captured c Hc) as (d & Hd & Hr).
    cbn [hex_digits List.length]. rewrite Hd.
    destruct (IH (16 * acc + d)) as (y & Hy & Hyr). rewrite Hy.
    rewrite Nat2Z.inj_succ, Z.pow_succ_r by lia.
    exists (d * 16 ^ Z.of_nat (List.length s) + y). split; [f_equal; lia|nia].
Qed.

Lemma land_bit15 (x : Z) :
  0 <= x -> (Z.land x 0x8000 =? 0) = (x mod 65536 <? 32768).
Proof.
  intros Hx.
  assert (E : Z.land x 0x8000 = if Z.testbit x 15 then 32768 else 0).
  { apply Z.bits_inj'. intros n Hn. rewrite Z.land_spec.
    change 0x8000 with (2 ^ 15). rewrite Z.pow2_bits_eqb by lia.
    destruct (Z.eqb_spec 15 n) as [<-|Hne].
    - rewrite andb_true_r. destruct (Z.testbit x 15) eqn:T.
      + change 32768 with (2 ^ 15). now rewrite Z.pow2_bits_true.
      + now rewrite Z.bits_0.
    - rewrite andb_false_r. destruct (Z.testbit x 15).
      + change 32768 with (2 ^ 15). rewrite Z.pow2_bits_false; auto.
      + now rewrite Z.bits_0. }
  rewrite E. destruct (Z.testbit x 15) eqn:T.
  - apply Z.testbit_true in T; [|lia]. change (2 ^ 15) with 32768 in T.
    cbn [Z.eqb]. symmetry. apply Z.ltb_ge. lia.
  - assert (N : (x / 2 ^ 15) mod 2 <> 1).
    { intros C. apply Z.testbit_true in C; [congruence|lia]. }
    change (2 ^ 15) with 32768 in N.
    cbn [Z.eqb]. symmetry. apply Z.ltb_lt. lia.
Qed.

Lemma lnot_low16 (x : Z) :
  Z.land (Z.lnot x) 0xFFFF = 65535 - x mod 65536.
Proof.
  change 0xFFFF with (Z.ones 16). rewrite Z.land_ones by lia.
  unfold Z.lnot. change (2 ^ 16) with 65536.
  change (Z.ones 16) with 65535.
  pose proof (Z.div_mod x 65536 ltac:(lia)) as D.
  pose proof (Z.mod_pos_bound x 65536 ltac:(lia)) as B.
  replace (Z.pred (- x))
    with (65535 - x mod 65536 + (- (x / 65536) - 1) * 65536) by lia.
  rewrite Z_mod_plus_full. apply Z.mod_small. lia.
Qed.

(** X15.  [rssi_to_decimal] on what the scanner captures.  The hexadecimal
    digits are read as a number [x], and the result is [x] when bit 15 of
    [x] is clear and [x mod 65536 - 65536] when it is set.  For up to four
    digits this is the 16-bit two's complement value, between -32768 and
    32767.  For more digits it is not: with bit 15 clear the result is [x]
    itself, beyond 16 bits, and with bit 15 set the digits above the
    fourth are dropped. *)
Theorem rssi_to_decimal_signed (rssi : pystr) :
  captured rssi ->
  exists x v,
    int_16 rssi = Some x /\ 0 <= x < 16 ^ Z.of_nat (List.length rssi) /\
    rssi_to_decimal rssi = Some v /\
    v = (if x mod 65536 <? 32768 then x else x mod 65536 - 65536) /\
    ((List.length rssi <= 4)%nat ->
     v = (if x <? 32768 then x else x - 65536) /\ -32768 <= v <= 32767).
Proof.
  intros [Hne H].
  destruct (hex_digits_value rssi 0 H) as (x & Hx & Hr).
  rewrite Z.mul_0_l, Z.add_0_l in Hx.
  assert (Hi : int_16 rssi = Some x).
  { unfold int_16. destruct rssi; [contradiction|exact Hx]. }
  exists x. eexists. split; [exact Hi|]. split; [exact Hr|].
  unfold rssi_to_decimal. rewrite Hi. split; [reflexivity|].
  rewrite land_bit15, lnot_low16 by lia.
  split.
  - destruct (x mod 65536 <? 32768); cbn [negb]; lia.
  - intros Hl.
    assert (B : 16 ^ Z.of_nat (List.length rssi) <= 16 ^ 4).
    { apply Z.pow_le_mono_r; lia. }
    change (16 ^ 4) with 65536 in B.
    rewrite (Z.mod_small x 65536) by lia.
    destruct (Z.ltb_spec x 32768); cbn [negb]; lia.
Qed.

Lemma rssi_to_decimal_signed_witness :
  captured (s_lit "FFC4") /\
  exists x v,
    int_16 (s_lit "FFC4") = Some x /\
    0 <= x < 16 ^ Z.of_nat (List.length (s_lit "FFC4")) /\
    rssi_to_decimal (s_lit "FFC4") = Some v /\
    v = (if x mod 65536 <? 32768 then x else x mod 65536 - 65536) /\
    ((List.length (s_lit "FFC4") <= 4)%nat ->
     v = (if x <? 32768 then x else x - 65536) /\ -32768 <= v <= 32767).
Proof.
  assert (H : captured (s_lit "FFC4")).
  { split; [discriminate|repeat constructor]. }
  split; [exact H|exact (rssi_to_decimal_signed (s_lit "FFC4") H)].
Defined.

End ScannerFacts.


(* ================================================================== *)
(** ** The main thread                                                 *)
(* ================================================================== *)

Module ServiceFacts.
Import Py Sender Trace Props PyFacts TransportFacts ShutdownFacts.
Import TransportMore ShutdownMore Service.

Ltac unfold_service :=
  cbv beta iota zeta delta
    [startup accept_client core_run semit
     St.and_then St.pure St.throw St.of_res St.state St.catch St.ignore_errors
     St.throw_if no_fault fst snd].

Lemma started_app (l l' : list sevent) : started (l ++ l') = started l ++ started l'.
Proof.
  induction l as [|ev l IH]; cbn [app started]; [reflexivity|].
  destruct ev; cbn; now rewrite ?IH.
Qed.

Lemma server_closes_app (l l' : list sevent) :
  server_closes (l ++ l') = (server_closes l + server_closes l')%nat.
Proof.
  induction l as [|ev l IH]; cbn [app server_closes]; [reflexivity|].
  destruct ev; cbn; now rewrite ?IH.
Qed.

(** [setup_serial_connection] in closed form, for the start-up. *)
Lemma setup_total (e : env) (w : world) :
  exists r w', setup_serial_connection e w = (Ret r, w') /\
               socket_file w' = socket_file w /\
               exit_flag w' = exit_flag w /\ clients w' = clients w.
Proof.
  destruct_world w; unfold_py; case_py; eauto 8.
Qed.

(** The start-up, when the stale socket file can be removed. *)
Lemma startup_spec (e : senv) (w : world) (log : list sevent) :
  (socket_file w = true -> unlink_fault (core e) = None) ->
  match startup_fault e with
  | Some x =>
    exists w' evs,
      startup e (w, log) = (Raise x, (w', log ++ evs)) /\
      started evs = [] /\ server_closes evs = 0%nat /\
      exit_flag w' = exit_flag w /\ clients w' = clients w /\
      ser w' = ser w /\
      socket_file w' = no_fault (bind_fault e)
  | None =>
    exists w',
      startup e (w, log)
      = (Ret tt, (w', log ++ [Bind true; Listen true; Chmod true;
                              Start MonitorThread])) /\
      socket_file w' = true /\ exit_flag w' = exit_flag w /\
      clients w' = clients w
  end.
Proof.
  intros Hu. unfold startup_fault.
  destruct w as [s cl ef sf tr]. cbn [socket_file] in Hu.
  destruct sf;
    cbv beta iota zeta delta
      [startup core_run semit St.and_then St.pure St.throw St.state St.throw_if
       no_fault fst snd unlink Sender.emit Sender.bind Sender.ret
       Sender.raise Sender.fault set_socket_file socket_file ser clients
       exit_flag trace];
    try rewrite (Hu eq_refl);
    (destruct (bind_fault e);
     [|destruct (listen_fault e); [|destruct (chmod_fault e)]]);
    cbv beta iota;
    try (eexists _, _; rewrite <- ?app_assoc; cbn [app];
         repeat split; reflexivity).
  all: match goal with
       | |- context [setup_serial_connection ?c ?w0] =>
         destruct (setup_total c w0) as (r & w' & -> & H1 & H2 & H3)
       end.
  all: exists w'; rewrite <- ?app_assoc; cbn [app]; repeat split; auto.
Qed.

(** X16.  If [bind], [listen] or [chmod] raises, [main] raises the same
    exception at once: no thread has been started, nothing is cleaned up,
    and the state of the service is untouched but for the socket file,
    which is left behind when [bind] had made it and a later call failed. *)
Theorem main_startup_failure (e : senv) (script : list turn) (fin : env)
    (w : world) (log : list sevent) (x : exn) :
  (socket_file w = true -> unlink_fault (core e) = None) ->
  startup_fault e = Some x ->
  exists w' evs,
    main e script fin (w, log) = (Raise x, (w', log ++ evs)) /\
    started evs = [] /\ server_closes evs = 0%nat /\
    exit_flag w' = exit_flag w /\ clients w' = clients w /\
    ser w' = ser w /\
    socket_file w' = no_fault (bind_fault e).
Proof.
  intros Hu Hx. pose proof (startup_spec e w log Hu) as H. rewrite Hx in H.
  destruct H as (w' & evs & Hs & H). exists w', evs. split; [|exact H].
  unfold main, St.and_then. now rewrite Hs.
Qed.

Lemma main_startup_failure_witness :
  exists w' evs,
    main (mkSenv Examples.port_up None None (Some (OSError 1)))
      [] Examples.port_up (Examples.idle_world, [])
    = (Raise (OSError 1), (w', [] ++ evs)) /\
    socket_file w' = true.
Proof.
  destruct (main_startup_failure
              (mkSenv Examples.port_up None None (Some (OSError 1)))
              [] Examples.port_up Examples.idle_world [] (OSError 1))
    as (w' & evs & H1 & _ & _ & _ & _ & _ & H2);
    [reflexivity|reflexivity|].
  exists w', evs. split; assumption.
Defined.

(** One call of [accept] with no signal: the world is as it was, and a
    thread is started exactly for a client. *)
Lemma accept_quietly (t : turn) (w : world) (log : list sevent) :
  interrupt t = None ->
  St.ignore_errors (accept_client t) (w, log)
  = (Ret tt,
     (w, log ++ Accept (result t)
              :: match result t with
                 | Client c => [Start (ClientThread c)]
                 | _ => []
                 end)).
Proof.
  intros Hi. unfold_service. rewrite Hi.
  destruct (result t); cbv beta iota; now rewrite <- ?app_assoc.
Qed.

(** X17.  Neither a time-out nor an error of [accept] ends the loop or touches
    the state of the service.  Without a signal, the main thread goes
    through the whole script and is then again waiting in [accept]; it
    has started one session thread for each client accepted, in the
    order of their arrival, and nothing else. *)
Theorem accept_loop_keeps_serving (script : list turn) (w : world)
    (log : list sevent) :
  exit_flag w = false ->
  Forall (fun t => interrupt t = None) script ->
  exists evs,
    accept_loop script (w, log) = (Ret false, (w, log ++ evs)) /\
    started evs = map ClientThread (clients_of script) /\
    server_closes evs = 0%nat.
Proof.
  intros Hf H. revert log.
  induction H as [|t rest Ht _ IH]; intros log; cbn [accept_loop fst].
  - exists []. rewrite Hf. unfold St.pure. now rewrite app_nil_r.
  - rewrite Hf. unfold St.and_then at 1. rewrite (accept_quietly t w log Ht).
    destruct (IH (log ++ Accept (result t)
                    :: match result t with
                       | Client c => [Start (ClientThread c)]
                       | _ => []
                       end)) as (evs & He & Hs & Hc).
    rewrite He.
    exists ((Accept (result t)
             :: match result t with
                | Client c => [Start (ClientThread c)]
                | _ => []
                end) ++ evs).
    split; [now rewrite app_assoc|].
    rewrite started_app, server_closes_app, Hs, Hc. cbn [clients_of].
    destruct (result t); auto.
Qed.

Lemma accept_loop_keeps_serving_witness :
  exists evs,
    accept_loop [mkTurn None Timeout; mkTurn None (Client 7%nat);
                 mkTurn None (AcceptError (OSError 24));
                 mkTurn None (Client 8%nat)]
      (Examples.idle_world, [])
    = (Ret false, (Examples.idle_world, [] ++ evs)) /\
    started evs = map ClientThread [7%nat; 8%nat].
Proof.
  destruct (accept_loop_keeps_serving
              [mkTurn None Timeout; mkTurn None (Client 7%nat);
               mkTurn None (AcceptError (OSError 24));
               mkTurn None (Client 8%nat)] Examples.idle_world [])
    as (evs & H1 & H2 & _); [reflexivity|repeat constructor|].
  exists evs. split; assumption.
Defined.

(** X18.  A signal ends the loop with the call of [accept] it interrupts: the
    handler's [cleanup] sets the stop flag, also when it raises, so that
    the loop is left after this turn and no later turn of the script is
    reached.  When the handler returns and the call then yields a client,
    a session thread is still started for it. *)
Theorem signal_ends_accept_loop (t : turn) (rest : list turn) (e : env)
    (w : world) (log : list sevent) :
  exit_flag w = false -> interrupt t = Some e ->
  accept_loop (t :: rest) (w, log) = accept_loop [t] (w, log) /\
  fst (accept_loop (t :: rest) (w, log)) = Ret true /\
  fst (snd (accept_loop (t :: rest) (w, log))) = snd (cleanup e w) /\
  (fst (cleanup e w) = Ret tt ->
   snd (snd (accept_loop (t :: rest) (w, log)))
   = log ++ Accept (result t)
          :: match result t with
             | Client c => [Start (ClientThread c)]
             | _ => []
             end).
Proof.
  intros Hf Hi.
  destruct (cleanup_state e w) as (Hx & _).
  assert (E : exists log',
            St.ignore_errors (accept_client t) (w, log)
            = (Ret tt, (snd (cleanup e w), log')) /\
            (fst (cleanup e w) = Ret tt ->
             log' = log ++ Accept (result t)
                         :: match result t with
                            | Client c => [Start (ClientThread c)]
                            | _ => []
                            end)).
  { unfold_service. rewrite Hi.
    destruct (cleanup e w) as [[[]|x] w1]; cbv beta iota.
    - destruct (result t); cbv beta iota; rewrite <- ?app_assoc;
        eexists; split; reflexivity || auto.
    - eexists. split; [reflexivity|discriminate]. }
  destruct E as (log' & E & Hl).
  assert (L : forall tail,
            accept_loop (t :: tail) (w, log)
            = (Ret true, (snd (cleanup e w), log'))).
  { intros tail. cbn [accept_loop fst]. rewrite Hf.
    unfold St.and_then at 1. rewrite E.
    destruct tail; cbn [accept_loop fst]; now rewrite Hx. }
  rewrite !L. cbn [fst snd]. auto.
Qed.

Lemma signal_ends_accept_loop_witness :
  fst (accept_loop [mkTurn (Some Examples.port_up) (Client 7%nat);
                    mkTurn None (Client 8%nat)]
         (Examples.connected_world, [])) = Ret true.
Proof.
  apply (signal_ends_accept_loop
           (mkTurn (Some Examples.port_up) (Client 7%nat))
           [mkTurn None (Client 8%nat)] Examples.port_up
           Examples.connected_world []); reflexivity.
Defined.

(** The loop never raises and never closes the listening socket. *)
Lemma accept_loop_log (script : list turn) (s : sworld) :
  exists b w' evs,
    accept_loop script s = (Ret b, (w', snd s ++ evs)) /\
    server_closes evs = 0%nat.
Proof.
  revert s. induction script as [|t rest IH]; intros [w log];
    cbn [accept_loop fst snd].
  - exists (exit_flag w), w, []. rewrite app_nil_r.
    now destruct (exit_flag w).
  - destruct (exit_flag w).
    { exists true, w, []. now rewrite app_nil_r. }
    assert (E : exists w1 evs,
              St.ignore_errors (accept_client t) (w, log)
              = (Ret tt, (w1, log ++ evs)) /\ server_closes evs = 0%nat).
    { unfold_service. destruct (interrupt t) as [e|].
      - destruct (cleanup e w) as [[[]|x] w1]; cbv beta iota.
        + destruct (result t); cbv beta iota; rewrite <- ?app_assoc;
            eexists _, _; split; reflexivity.
        + exists w1, []. now rewrite app_nil_r.
      - destruct (result t); cbv beta iota; rewrite <- ?app_assoc;
          eexists _, _; split; reflexivity. }
    destruct E as (w1 & evs & E & Hc). unfold St.and_then at 1. rewrite E.
    destruct (IH (w1, log ++ evs)) as (b & w2 & evs' & E' & Hc').
    rewrite E'. exists b, w2, (evs ++ evs'). cbn [snd].
    rewrite app_assoc, server_closes_app, Hc, Hc'. auto.
Qed.

(** The start-up never closes the listening socket. *)
Lemma startup_log (e : senv) (s : sworld) :
  exists r w' evs,
    startup e s = (r, (w', snd s ++ evs)) /\ server_closes evs = 0%nat.
Proof.
  destruct s as [[sr cl ef sf tr] log].
  destruct sf;
    cbv beta iota zeta delta
      [startup core_run semit St.and_then St.pure St.throw St.state St.throw_if
       no_fault fst snd unlink Sender.emit Sender.bind Sender.ret
       Sender.raise Sender.fault set_socket_file socket_file ser clients
       exit_flag trace];
    try destruct (unlink_fault (core e));
    try (destruct (bind_fault e);
         [|destruct (listen_fault e); [|destruct (chmod_fault e)]]);
    cbv beta iota;
    repeat match goal with
    | |- context [setup_serial_connection ?c ?w0] =>
      destruct (setup_serial_connection c w0) as [[?|?] ?]
    end;
    rewrite <- ?app_assoc; cbn [app];
    try (eexists _, _, _; split; [reflexivity|reflexivity]);
    eexists _, _, []; rewrite app_nil_r; split; reflexivity.
Qed.

(** X19.  How [main] ends.  It closes the listening socket once, as its last
    act, when it returns, and not at all when it ends by an exception
    (of the start-up, or of [os.unlink] in the last [cleanup]) or is still
    serving.  When it returns, the stop flag is set, the registry is
    empty, the port is not open and the socket file is gone. *)
Theorem main_exit_is_clean (e : senv) (script : list turn) (fin : env)
    (w : world) (log : list sevent) :
  exists evs,
    snd (snd (main e script fin (w, log))) = log ++ evs /\
    (fst (main e script fin (w, log)) = Ret true ->
     (exists pre, evs = pre ++ [ServerClose] /\ server_closes pre = 0%nat) /\
     exit_flag (fst (snd (main e script fin (w, log)))) = true /\
     clients (fst (snd (main e script fin (w, log)))) = [] /\
     ser_is_open (fst (snd (main e script fin (w, log)))) = false /\
     socket_file (fst (snd (main e script fin (w, log)))) = false) /\
    (fst (main e script fin (w, log)) <> Ret true ->
     server_closes evs = 0%nat).
Proof.
  remember (main e script fin (w, log)) as m eqn:Hm.
  unfold main, St.and_then in Hm.
  destruct (startup_log e (w, log)) as (r & w1 & ev1 & E1 & H1).
  rewrite E1 in Hm. cbn [snd] in Hm. destruct r as [[]|x].
  2:{ subst m. exists ev1. cbn [fst snd]. split; [reflexivity|].
      split; [discriminate|auto]. }
  destruct (accept_loop_log script (w1, log ++ ev1))
    as (b & w2 & ev2 & E2 & H2).
  rewrite E2 in Hm. cbn [snd] in Hm. destruct b.
  2:{ subst m. exists (ev1 ++ ev2). cbn [fst snd St.pure].
      rewrite server_closes_app, H1, H2.
      split; [now rewrite <- !app_assoc|]. split; [discriminate|auto]. }
  unfold core_run, semit, St.pure in Hm. cbn [fst snd] in Hm.
  destruct (cleanup_state fin w2) as (Hf & Hc & Ho & Hr).
  destruct (cleanup fin w2) as [[[]|x] w3]; cbn [fst snd] in *; subst m;
    cbn [fst snd].
  - exists ((ev1 ++ ev2) ++ [ServerClose]).
    split; [now rewrite <- !app_assoc|].
    split; [|intros C; now contradiction C].
    intros _. split; [|repeat split; auto].
    + exists (ev1 ++ ev2). now rewrite server_closes_app, H1, H2.
    + destruct Hr as [[_ Hr]|(y & _ & _ & Hy & _)]; [exact Hr|discriminate].
  - exists (ev1 ++ ev2). rewrite server_closes_app, H1, H2.
    split; [now rewrite <- !app_assoc|]. split; [discriminate|auto].
Qed.

End ServiceFacts.
